(** * senza: the Taupage user-data generator

    A shallow embedding of [generate_user_data] from
    [senza/components/taupage_auto_scaling_group.py] together with the three
    library routines it is glued to ([json.dumps], [json.loads] and
    [yaml.dump]) and the module constant [_AWS_FN_RE].

    Modelling conventions.
    - A Python [str] is a Rocq [string]; every [ascii] stands for the code
      point of the same number, so the model covers the strings whose code
      points are below 256.
    - Python values are the type [node]: [None], [bool], [int], [str], [list]
      and [dict] with [str] keys, a [dict] being the list of its items in
      insertion order.  Floats are left out.
    - An exception is a value of [exn]; code that may raise returns a
      [result].  The resolver of [senza.aws] is a parameter of the functions
      that call it, and every call is recorded in a log.
    - The rest of the module, [check_application_id],
      [check_application_version], [check_docker_image_exists] and
      [component_taupage_auto_scaling_group], comes after
      [generate_user_data]: its exceptions are values of [error], and the
      functions of other modules that it calls are parameters whose calls to
      the registries, the token store and the resolver are recorded. *)

From Stdlib Require Import String Ascii List ZArith Bool Arith Lia.
From Stdlib Require Import DecimalString Permutation Sorted OrderedTypeEx.
From Stdlib Require Decimal DecimalFacts DecimalPos DecimalZ.
Import ListNotations.

Local Open Scope list_scope.
Local Open Scope string_scope.

(** ** Python values *)

Unset Elimination Schemes.
Inductive node : Type :=
| PyNone
| PyBool (b : bool)
| PyInt (z : Z)
| PyStr (s : string)
| PyList (items : list node)
| PyDict (entries : list (string * node)).
Set Elimination Schemes.

(** Exceptions that can leave [generate_user_data].  [OutsideModel] is not a
    Python exception: [PyJson.loads] returns it for a text whose value holds
    a float or a character above U+00FF, about which the model is silent. *)
Inductive exn : Type :=
| ResolverError (msg : string)
| JSONDecodeError
| OutsideModel.

Inductive result (A : Type) : Type :=
| Ok (a : A)
| Raise (e : exn).

Arguments Ok {A} a.
Arguments Raise {A} e.

(** A computation that may call the resolver: the arguments of the calls it
    made, oldest first, and its outcome. *)
Definition M (A : Type) : Type := (list node * result A)%type.

Definition ret {A : Type} (a : A) : M A := ([], Ok a).

Definition bind {A B : Type} (m : M A) (f : A -> M B) : M B :=
  match m with
  | (calls, Ok a) => let (calls', r) := f a in ((calls ++ calls')%list, r)
  | (calls, Raise e) => (calls, Raise e)
  end.

Definition lift {A : Type} (r : result A) : M A := ([], r).

Definition calls_of {A : Type} (m : M A) : list node := fst m.
Definition outcome {A : Type} (m : M A) : result A := snd m.

Declare Scope py_scope.
Delimit Scope py_scope with py.
Notation "x <- m ;; k" := (bind m (fun x => k))
  (at level 61, m at next level, right associativity) : py_scope.
Local Open Scope py_scope.

(** ** Characters and slices *)

Definition LF : ascii := "010"%char.
Definition CR : ascii := "013"%char.
Definition TAB : ascii := "009"%char.
Definition DQ : ascii := "034"%char.
Definition SQ : ascii := "039"%char.
Definition BSL : ascii := "092"%char.
Definition NEL : ascii := "133"%char.

Definition chr (c : ascii) : string := String c EmptyString.
Definition nl : string := chr LF.
Definition dq : string := chr DQ.

Definition code (c : ascii) : nat := nat_of_ascii c.

Fixpoint drop (n : nat) (s : string) : string :=
  match n, s with
  | O, _ => s
  | S n', String _ s' => drop n' s'
  | S _, EmptyString => EmptyString
  end.

(** [text[a:b]] for [0 <= a] and [0 <= b]. *)
Definition slice (text : string) (a b : nat) : string := substring a (b - a) text.

Fixpoint member (c : ascii) (s : string) : bool :=
  match s with
  | EmptyString => false
  | String d s' => Ascii.eqb c d || member c s'
  end.

(** ** [json.dumps] and [json.loads]

    The encoder with its defaults ([ensure_ascii=True], separators [", "] and
    [": "], keys in insertion order) and the decoder with its defaults
    ([strict=True]).  The decoder is a recursive-descent reading of the same
    grammar; it is bounded by a fuel that twice the length of the text
    covers. *)

Module PyJson.

Definition hex_digit (d : nat) : ascii :=
  match get d "0123456789abcdef" with
  | Some c => c
  | None => "0"%char
  end.

(** [ESCAPE_DCT] of [json.encoder], applied to every character that is a
    backslash, a double quote or outside [' '] .. ['~']. *)
Definition escape_char (c : ascii) : string :=
  if Ascii.eqb c DQ then String BSL dq
  else if Ascii.eqb c BSL then String BSL (chr BSL)
  else if Ascii.eqb c LF then String BSL "n"
  else if Ascii.eqb c CR then String BSL "r"
  else if Ascii.eqb c TAB then String BSL "t"
  else if Ascii.eqb c "008"%char then String BSL "b"
  else if Ascii.eqb c "012"%char then String BSL "f"
  else if ((code c <? 32) || (126 <? code c))%nat then
    String BSL ("u00" ++ String (hex_digit (code c / 16)) (chr (hex_digit (code c mod 16))))
  else chr c.

Fixpoint escape (s : string) : string :=
  match s with
  | EmptyString => EmptyString
  | String c s' => escape_char c ++ escape s'
  end.

Definition encode_str (s : string) : string := dq ++ escape s ++ dq.

(** [str(z)] for an [int]. *)
Definition str_of_int (z : Z) : string := NilZero.string_of_int (Z.to_int z).

Fixpoint dumps (nd : node) : string :=
  match nd with
  | PyNone => "null"
  | PyBool true => "true"
  | PyBool false => "false"
  | PyInt z => str_of_int z
  | PyStr s => encode_str s
  | PyList items =>
      "[" ++
      (fix elements (l : list node) : string :=
         match l with
         | [] => ""
         | [x] => dumps x
         | x :: l' => dumps x ++ ", " ++ elements l'
         end) items ++ "]"
  | PyDict entries =>
      "{" ++
      (fix members (l : list (string * node)) : string :=
         match l with
         | [] => ""
         | [(k, v)] => encode_str k ++ ": " ++ dumps v
         | (k, v) :: l' => encode_str k ++ ": " ++ dumps v ++ ", " ++ members l'
         end) entries ++ "}"
  end.

Definition is_ws (c : ascii) : bool :=
  Ascii.eqb c " " || Ascii.eqb c TAB || Ascii.eqb c LF || Ascii.eqb c CR.

Fixpoint skip_ws (s : string) : string :=
  match s with
  | String c s' => if is_ws c then skip_ws s' else s
  | EmptyString => s
  end.

Definition is_digit (c : ascii) : bool := ((48 <=? code c) && (code c <=? 57))%nat.

Definition hex_val (c : ascii) : option nat :=
  let n := code c in
  if ((48 <=? n) && (n <=? 57))%nat then Some (n - 48)
  else if ((97 <=? n) && (n <=? 102))%nat then Some (n - 87)
  else if ((65 <=? n) && (n <=? 70))%nat then Some (n - 55)
  else None.

Definition hex4 (a b c d : ascii) : option nat :=
  match hex_val a, hex_val b, hex_val c, hex_val d with
  | Some x, Some y, Some z, Some w => Some (((x * 16 + y) * 16 + z) * 16 + w)
  | _, _, _, _ => None
  end.

(** [BACKSLASH] of [json.decoder]. *)
Definition unescape (e : ascii) : option ascii :=
  if Ascii.eqb e DQ then Some DQ
  else if Ascii.eqb e BSL then Some BSL
  else if Ascii.eqb e "/" then Some "/"%char
  else if Ascii.eqb e "b" then Some "008"%char
  else if Ascii.eqb e "f" then Some "012"%char
  else if Ascii.eqb e "n" then Some LF
  else if Ascii.eqb e "r" then Some CR
  else if Ascii.eqb e "t" then Some TAB
  else None.

Definition push (c : ascii) (r : result (string * string)) : result (string * string) :=
  match r with
  | Ok (v, rest) => Ok (String c v, rest)
  | Raise e => Raise e
  end.

(** [scanstring], entered after the opening quote: the decoded string and
    the text after the closing quote. *)
Fixpoint scanstring (s : string) : result (string * string) :=
  match s with
  | EmptyString => Raise JSONDecodeError
  | String c s' =>
      if Ascii.eqb c DQ then Ok (EmptyString, s')
      else if Ascii.eqb c BSL then
        match s' with
        | EmptyString => Raise JSONDecodeError
        | String e s'' =>
            if Ascii.eqb e "u" then
              match s'' with
              | String h1 (String h2 (String h3 (String h4 r))) =>
                  match hex4 h1 h2 h3 h4 with
                  | Some n =>
                      if (n <? 256)%nat then push (ascii_of_nat n) (scanstring r)
                      else Raise OutsideModel
                  | None => Raise JSONDecodeError
                  end
              | _ => Raise JSONDecodeError
              end
            else
              match unescape e with
              | Some d => push d (scanstring s'')
              | None => Raise JSONDecodeError
              end
        end
      else if (code c <? 32)%nat then Raise JSONDecodeError
      else push c (scanstring s')
  end.

Fixpoint span_digits (s : string) : string * string :=
  match s with
  | String c s' =>
      if is_digit c then let (d, r) := span_digits s' in (String c d, r)
      else (EmptyString, s)
  | EmptyString => (EmptyString, EmptyString)
  end.

Definition starts_with_digit (s : string) : bool :=
  match s with
  | String c _ => is_digit c
  | EmptyString => false
  end.

(** What follows the integer part makes the number a float: a dot and a
    digit, or [e]/[E], an optional sign and a digit. *)
Definition float_tail (s : string) : bool :=
  match s with
  | String "." s' => starts_with_digit s'
  | String c s' =>
      if Ascii.eqb c "e" || Ascii.eqb c "E" then
        match s' with
        | String d s'' =>
            if Ascii.eqb d "+" || Ascii.eqb d "-" then starts_with_digit s''
            else is_digit d
        | EmptyString => false
        end
      else false
  | EmptyString => false
  end.

Definition int_of_digits (neg : bool) (digits : string) : Z :=
  match NilZero.int_of_string digits with
  | Some d => if neg then Z.opp (Z.of_int d) else Z.of_int d
  | None => 0%Z
  end.

(** [NUMBER_RE] matched at the head of [s]: an optional minus sign, then
    [0] or a digit string with no leading zero, then the optional fraction and
    exponent that [float_tail] recognises. *)
Definition scan_number (s : string) : result (node * string) :=
  let (neg, body) :=
    match s with
    | String "-" s' => (true, s')
    | _ => (false, s)
    end in
  match body with
  | String c rest =>
      if Ascii.eqb c "0" then
        if float_tail rest then Raise OutsideModel else Ok (PyInt 0, rest)
      else if is_digit c then
        let (digits, rest') := span_digits body in
        if float_tail rest' then Raise OutsideModel
        else Ok (PyInt (int_of_digits neg digits), rest')
      else if prefix "-Infinity" s then Raise OutsideModel
      else Raise JSONDecodeError
  | EmptyString => Raise JSONDecodeError
  end.

(** [dict(pairs)]: a repeated key keeps its first position and takes the
    last value. *)
Fixpoint dict_set (k : string) (v : node) (d : list (string * node)) : list (string * node) :=
  match d with
  | [] => [(k, v)]
  | (k', v') :: d' => if String.eqb k k' then (k, v) :: d' else (k', v') :: dict_set k v d'
  end.

Definition dict_of_pairs (pairs : list (string * node)) : list (string * node) :=
  fold_left (fun d kv => dict_set (fst kv) (snd kv) d) pairs [].

(** The text after [c], when [s] starts with [c]. *)
Definition eat (c : ascii) (s : string) : option string :=
  match s with
  | String d r => if Ascii.eqb c d then Some r else None
  | EmptyString => None
  end.

Fixpoint scan_once (fuel : nat) (s : string) {struct fuel} : result (node * string) :=
  match fuel with
  | O => Raise OutsideModel
  | S fuel' =>
      match s with
      | EmptyString => Raise JSONDecodeError
      | String c rest =>
          if Ascii.eqb c DQ then
            match scanstring rest with
            | Ok (v, r) => Ok (PyStr v, r)
            | Raise e => Raise e
            end
          else if Ascii.eqb c "{" then
            match eat "}" (skip_ws rest) with
            | Some r => Ok (PyDict [], r)
            | None =>
                match JSONObject fuel' (skip_ws rest) with
                | Ok (pairs, r) => Ok (PyDict (dict_of_pairs pairs), r)
                | Raise e => Raise e
                end
            end
          else if Ascii.eqb c "[" then
            match eat "]" (skip_ws rest) with
            | Some r => Ok (PyList [], r)
            | None =>
                match JSONArray fuel' (skip_ws rest) with
                | Ok (values, r) => Ok (PyList values, r)
                | Raise e => Raise e
                end
            end
          else if prefix "null" s then Ok (PyNone, drop 4 s)
          else if prefix "true" s then Ok (PyBool true, drop 4 s)
          else if prefix "false" s then Ok (PyBool false, drop 5 s)
          else if prefix "NaN" s || prefix "Infinity" s then Raise OutsideModel
          else scan_number s
      end
  end

(** The members of an object, entered where the quote of a key is due. *)
with JSONObject (fuel : nat) (s : string) {struct fuel}
  : result (list (string * node) * string) :=
  match fuel with
  | O => Raise OutsideModel
  | S fuel' =>
      match eat DQ s with
      | None => Raise JSONDecodeError
      | Some rest =>
          match scanstring rest with
          | Raise e => Raise e
          | Ok (key, r) =>
              match eat ":" (skip_ws r) with
              | None => Raise JSONDecodeError
              | Some r1 =>
                  match scan_once fuel' (skip_ws r1) with
                  | Raise e => Raise e
                  | Ok (value, r2) =>
                      match eat "}" (skip_ws r2), eat "," (skip_ws r2) with
                      | Some r3, _ => Ok ([(key, value)], r3)
                      | None, Some r3 =>
                          match JSONObject fuel' (skip_ws r3) with
                          | Ok (pairs, r4) => Ok ((key, value) :: pairs, r4)
                          | Raise e => Raise e
                          end
                      | None, None => Raise JSONDecodeError
                      end
                  end
              end
          end
      end
  end

(** The elements of an array, entered where a value is due. *)
with JSONArray (fuel : nat) (s : string) {struct fuel}
  : result (list node * string) :=
  match fuel with
  | O => Raise OutsideModel
  | S fuel' =>
      match scan_once fuel' s with
      | Raise e => Raise e
      | Ok (value, r) =>
          match eat "]" (skip_ws r), eat "," (skip_ws r) with
          | Some r1, _ => Ok ([value], r1)
          | None, Some r1 =>
              match JSONArray fuel' (skip_ws r1) with
              | Ok (values, r2) => Ok (value :: values, r2)
              | Raise e => Raise e
              end
          | None, None => Raise JSONDecodeError
          end
      end
  end.

(** [json.loads(s)]: one value between optional white space, and nothing
    else. *)
Definition loads (s : string) : result node :=
  match scan_once (2 + 2 * String.length s) (skip_ws s) with
  | Ok (v, r) =>
      match skip_ws r with
      | EmptyString => Ok v
      | _ => Raise JSONDecodeError
      end
  | Raise e => Raise e
  end.

(** *** Shapes of JSON text, for the facts about the decoder *)

(** What may follow a value inside a document: nothing, a comma, or a
    closing bracket or brace. *)
Definition delimited (rest : string) : bool :=
  match rest with
  | EmptyString => true
  | String c _ => Ascii.eqb c "," || Ascii.eqb c "]" || Ascii.eqb c "}"
  end.

(** A text that opens a value: it starts with neither white space nor a
    delimiter. *)
Definition value_start (s : string) : bool :=
  match s with
  | String c _ => negb (is_ws c) && negb (Ascii.eqb c "]") && negb (Ascii.eqb c "}")
                  && negb (Ascii.eqb c ",") && negb (Ascii.eqb c ":")
  | EmptyString => false
  end.

(** A decimal numeral that does not start with a zero. *)
Definition nonzero_head (d : Decimal.uint) : Prop :=
  match d with
  | Decimal.Nil | Decimal.D0 _ => False
  | _ => True
  end.

(** The two local loops of [dumps], on their own. *)
Fixpoint dump_elements (l : list node) : string :=
  match l with
  | [] => ""
  | [x] => dumps x
  | x :: l' => dumps x ++ ", " ++ dump_elements l'
  end.

Fixpoint dump_members (l : list (string * node)) : string :=
  match l with
  | [] => ""
  | [(k, v)] => encode_str k ++ ": " ++ dumps v
  | (k, v) :: l' => encode_str k ++ ": " ++ dumps v ++ ", " ++ dump_members l'
  end.

End PyJson.

(** ** Regular expressions

    The patterns of the YAML resolver are written as regular expressions and
    matched with Brzozowski derivatives. *)

Module PyRe.

Inductive regex : Type :=
| Void
| Eps
| Sym (p : ascii -> bool)
| Cat (r1 r2 : regex)
| Alt (r1 r2 : regex)
| Star (r : regex).

Fixpoint nullable (r : regex) : bool :=
  match r with
  | Void => false
  | Eps => true
  | Sym _ => false
  | Cat r1 r2 => nullable r1 && nullable r2
  | Alt r1 r2 => nullable r1 || nullable r2
  | Star _ => true
  end.

Fixpoint deriv (c : ascii) (r : regex) : regex :=
  match r with
  | Void => Void
  | Eps => Void
  | Sym p => if p c then Eps else Void
  | Cat r1 r2 =>
      if nullable r1 then Alt (Cat (deriv c r1) r2) (deriv c r2)
      else Cat (deriv c r1) r2
  | Alt r1 r2 => Alt (deriv c r1) (deriv c r2)
  | Star r1 => Cat (deriv c r1) (Star r1)
  end.

(** [r] matches the whole of [s]. *)
Fixpoint fullmatch (r : regex) (s : string) : bool :=
  match s with
  | EmptyString => nullable r
  | String c s' => fullmatch (deriv c r) s'
  end.

Fixpoint lit (s : string) : regex :=
  match s with
  | EmptyString => Eps
  | String c s' => Cat (Sym (Ascii.eqb c)) (lit s')
  end.

Definition cls (chars : string) : regex := Sym (fun c => member c chars).
Definition opt (r : regex) : regex := Alt Eps r.
Definition plus (r : regex) : regex := Cat r (Star r).

Fixpoint seq (rs : list regex) : regex :=
  match rs with
  | [] => Eps
  | r :: rs' => Cat r (seq rs')
  end.

Fixpoint alts (rs : list regex) : regex :=
  match rs with
  | [] => Void
  | r :: rs' => Alt r (alts rs')
  end.

(** [re.compile('^(?:r)$').match(s)]: [$] also matches before a line feed
    that ends the string. *)
Definition match_anchored (r : regex) (s : string) : bool :=
  fullmatch r s || fullmatch (Cat r (Sym (Ascii.eqb LF))) s.

End PyRe.

(** ** [yaml.dump]

    [yaml.dump(data, width=sys.maxsize, default_flow_style=False)] of PyYAML,
    for data of type [node]: the representer (with its default
    [sort_keys=True]), the implicit resolver and the emitter.  The emitter is
    the state machine of [yaml/emitter.py], its event queue replaced by a
    recursion over the tree.  No line is ever longer than [sys.maxsize], so
    the emitter never folds one.  Values are trees: no object occurs twice,
    and no anchor or alias is written. *)

Module PyYaml.

Import PyRe.

(** *** Resolver *)

Inductive tag : Type :=
| TagStr | TagBool | TagFloat | TagInt | TagMerge | TagNull | TagTimestamp
| TagValue | TagYaml.

Definition tag_eqb (a b : tag) : bool :=
  match a, b with
  | TagStr, TagStr | TagBool, TagBool | TagFloat, TagFloat | TagInt, TagInt
  | TagMerge, TagMerge | TagNull, TagNull | TagTimestamp, TagTimestamp
  | TagValue, TagValue | TagYaml, TagYaml => true
  | _, _ => false
  end.

Definition digit : regex := cls "0123456789".
Definition digit_ : regex := cls "0123456789_".
Definition sign : regex := opt (cls "-+").
Definition exponent : regex := opt (seq [cls "eE"; cls "-+"; plus digit]).
Definition sexagesimal : regex := plus (seq [lit ":"; opt (cls "012345"); digit]).

Definition bool_re : regex :=
  alts (map lit ["yes"; "Yes"; "YES"; "no"; "No"; "NO"; "true"; "True"; "TRUE";
                 "false"; "False"; "FALSE"; "on"; "On"; "ON"; "off"; "Off"; "OFF"]).

Definition float_re : regex :=
  alts [seq [sign; digit; Star digit_; lit "."; Star digit_; exponent];
        seq [lit "."; digit; Star digit_; exponent];
        seq [sign; digit; Star digit_; sexagesimal; lit "."; Star digit_];
        seq [sign; lit "."; alts (map lit ["inf"; "Inf"; "INF"])];
        seq [lit "."; alts (map lit ["nan"; "NaN"; "NAN"])]].

Definition int_re : regex :=
  alts [seq [sign; lit "0b"; plus (cls "01_")];
        seq [sign; lit "0"; plus (cls "01234567_")];
        seq [sign; Alt (lit "0") (seq [cls "123456789"; Star digit_])];
        seq [sign; lit "0x"; plus (cls "0123456789abcdefABCDEF_")];
        seq [sign; cls "123456789"; Star digit_; sexagesimal]].

Definition merge_re : regex := lit "<<".

Definition null_re : regex := alts (map lit ["~"; "null"; "Null"; "NULL"; ""]).

Definition blank : regex := Sym (fun c => Ascii.eqb c " " || Ascii.eqb c TAB).

Definition timestamp_re : regex :=
  alts [seq [digit; digit; digit; digit; lit "-"; digit; digit; lit "-"; digit; digit];
        seq [digit; digit; digit; digit; lit "-"; digit; opt digit; lit "-"; digit; opt digit;
             Alt (cls "Tt") (plus blank); digit; opt digit;
             lit ":"; digit; digit; lit ":"; digit; digit;
             opt (seq [lit "."; Star digit]);
             opt (seq [Star blank;
                       Alt (lit "Z")
                           (seq [cls "-+"; digit; opt digit;
                                 opt (seq [lit ":"; digit; digit])])])]].

Definition value_re : regex := lit "=".

Definition yaml_re : regex := alts (map lit ["!"; "&"; "*"]).

(** [yaml_implicit_resolvers], in the order of registration.  The table is
    indexed by the first character of the value; every pattern fixes its own
    first characters to the ones it is filed under, so trying them all gives
    the same tag. *)
Definition implicit_resolvers : list (tag * regex) :=
  [(TagBool, bool_re); (TagFloat, float_re); (TagInt, int_re);
   (TagMerge, merge_re); (TagNull, null_re); (TagTimestamp, timestamp_re);
   (TagValue, value_re); (TagYaml, yaml_re)].

(** [resolve(ScalarNode, value, (True, False))]. *)
Definition resolve (value : string) : tag :=
  match find (fun tr => match_anchored (snd tr) value) implicit_resolvers with
  | Some (t, _) => t
  | None => TagStr
  end.

(** *** Scalar analysis *)

Record ScalarAnalysis : Type := {
  empty : bool;
  multiline : bool;
  allow_flow_plain : bool;
  allow_block_plain : bool;
  allow_single_quoted : bool;
  allow_double_quoted : bool;
  allow_block : bool
}.

(** The characters the emitter treats as white space around an indicator. *)
Definition is_space_like (c : ascii) : bool :=
  Ascii.eqb c "000" || Ascii.eqb c " " || Ascii.eqb c TAB || Ascii.eqb c CR
  || Ascii.eqb c LF || Ascii.eqb c NEL.

Definition is_break (c : ascii) : bool := Ascii.eqb c LF || Ascii.eqb c NEL.

Definition is_printable (c : ascii) : bool :=
  Ascii.eqb c LF || ((32 <=? code c) && (code c <=? 126))%nat.

(** The flags gathered by the loop of [analyze_scalar]. *)
Record flags : Type := {
  block_indicators : bool;
  flow_indicators : bool;
  line_breaks : bool;
  special_characters : bool;
  leading_space : bool;
  leading_break : bool;
  trailing_space : bool;
  trailing_break : bool;
  break_space : bool;
  space_break : bool;
  preceded_by_whitespace : bool;
  previous_space : bool;
  previous_break : bool
}.

Definition followed_by_whitespace (rest : string) : bool :=
  match rest with
  | EmptyString => true
  | String c _ => is_space_like c
  end.

(** One turn of the loop, at character [ch] with [rest] after it; [first]
    says that [index == 0]. *)
Definition analyze_char (first : bool) (ch : ascii) (rest : string) (f : flags) : flags :=
  let followed := followed_by_whitespace rest in
  let last := match rest with EmptyString => true | _ => false end in
  let ind_both :=
    if first then
      member ch ("#,[]{}&*!|>'" ++ dq ++ "%@`")
      || (Ascii.eqb ch "-" && followed)
    else
      Ascii.eqb ch "#" && preceded_by_whitespace f in
  let ind_flow :=
    if first then member ch "?:"
    else member ch ",?[]{}" || Ascii.eqb ch ":" in
  let ind_block :=
    if first then member ch "?:" && followed
    else Ascii.eqb ch ":" && followed in
  let sp := Ascii.eqb ch " " in
  let br := is_break ch in
  {| block_indicators := block_indicators f || ind_both || ind_block;
     flow_indicators := flow_indicators f || ind_both || ind_flow;
     line_breaks := line_breaks f || br;
     special_characters := special_characters f || negb (is_printable ch);
     leading_space := leading_space f || (sp && first);
     leading_break := leading_break f || (negb sp && br && first);
     trailing_space := trailing_space f || (sp && last);
     trailing_break := trailing_break f || (negb sp && br && last);
     break_space := break_space f || (sp && previous_break f);
     space_break := space_break f || (negb sp && br && previous_space f);
     preceded_by_whitespace := is_space_like ch;
     previous_space := sp;
     previous_break := negb sp && br |}.

Fixpoint analyze_loop (first : bool) (s : string) (f : flags) : flags :=
  match s with
  | EmptyString => f
  | String ch rest => analyze_loop false rest (analyze_char first ch rest f)
  end.

Definition analyze_scalar (scalar : string) : ScalarAnalysis :=
  match scalar with
  | EmptyString =>
      {| empty := true; multiline := false;
         allow_flow_plain := false; allow_block_plain := true;
         allow_single_quoted := true; allow_double_quoted := true;
         allow_block := false |}
  | _ =>
      let document_indicator := prefix "---" scalar || prefix "..." scalar in
      let f := analyze_loop true scalar
        {| block_indicators := document_indicator;
           flow_indicators := document_indicator;
           line_breaks := false; special_characters := false;
           leading_space := false; leading_break := false;
           trailing_space := false; trailing_break := false;
           break_space := false; space_break := false;
           preceded_by_whitespace := true;
           previous_space := false; previous_break := false |} in
      let edge := leading_space f || leading_break f
                  || trailing_space f || trailing_break f in
      let only_double := space_break f || special_characters f in
      let no_plain := edge || break_space f || only_double || line_breaks f in
      {| empty := false;
         multiline := line_breaks f;
         allow_flow_plain := negb (no_plain || flow_indicators f);
         allow_block_plain := negb (no_plain || block_indicators f);
         allow_single_quoted := negb (break_space f || only_double);
         allow_double_quoted := true;
         allow_block := negb (trailing_space f || only_double) |}
  end.

Inductive style : Type := Plain | SingleQuoted | DoubleQuoted.

(** [choose_scalar_style] for an event without a style of its own, outside
    any flow collection; [implicit0] is [event.implicit[0]]. *)
Definition choose_scalar_style (implicit0 simple_key_context : bool)
    (a : ScalarAnalysis) : style :=
  if implicit0
     && negb (simple_key_context && (empty a || multiline a))
     && allow_block_plain a
  then Plain
  else if allow_single_quoted a && negb (simple_key_context && multiline a)
  then SingleQuoted
  else DoubleQuoted.

(** *** Emitter *)

(** The part of the emitter's state that the writers read and change. *)
Record emitter : Type := {
  out : string;
  column : nat;
  whitespace : bool;
  indention : bool;
  open_ended : bool
}.

Definition initial : emitter :=
  {| out := ""; column := 0; whitespace := true; indention := true;
     open_ended := false |}.

(** [self.column += len(data); self.stream.write(data)]. *)
Definition write (data : string) (e : emitter) : emitter :=
  {| out := out e ++ data; column := column e + String.length data;
     whitespace := whitespace e; indention := indention e;
     open_ended := open_ended e |}.

Definition write_indicator (indicator : string) (need_whitespace : bool)
    (whitespace' indention' : bool) (e : emitter) : emitter :=
  let data := if whitespace e || negb need_whitespace then indicator
              else " " ++ indicator in
  {| out := out e ++ data; column := column e + String.length data;
     whitespace := whitespace'; indention := indention e && indention';
     open_ended := false |}.

Definition write_line_break (data : string) (e : emitter) : emitter :=
  {| out := out e ++ data; column := 0; whitespace := true; indention := true;
     open_ended := open_ended e |}.

Fixpoint spaces (n : nat) : string :=
  match n with
  | O => ""
  | S n' => String " " (spaces n')
  end.

Definition write_indent (indent : option nat) (e : emitter) : emitter :=
  let indent := match indent with Some i => i | None => 0 end in
  let e1 := if negb (indention e) || (indent <? column e)%nat
               || ((column e =? indent)%nat && negb (whitespace e))
            then write_line_break nl e else e in
  if (column e1 <? indent)%nat then
    {| out := out e1 ++ spaces (indent - column e1); column := indent;
       whitespace := true; indention := indention e1;
       open_ended := open_ended e1 |}
  else e1.

Definition set_open_ended (b : bool) (e : emitter) : emitter :=
  {| out := out e; column := column e; whitespace := whitespace e;
     indention := indention e; open_ended := b |}.

Definition set_marks (whitespace' indention' : bool) (e : emitter) : emitter :=
  {| out := out e; column := column e; whitespace := whitespace';
     indention := indention'; open_ended := open_ended e |}.

(** [write_plain].  The plain style is chosen only for a scalar without a
    line break, and a run of spaces is never a place to fold, so the loop
    copies the text. *)
Definition write_plain (root_context : bool) (text : string) (e : emitter) : emitter :=
  let e := if root_context then set_open_ended true e else e in
  match text with
  | EmptyString => e
  | _ =>
      let e := if whitespace e then e else write " " e in
      write text (set_marks false false e)
  end.

Fixpoint write_breaks (run : string) (e : emitter) : emitter :=
  match run with
  | EmptyString => e
  | String br run' =>
      write_breaks run' (write_line_break (if Ascii.eqb br LF then nl else chr br) e)
  end.

(** The loop of [write_single_quoted]: [pending] is [text[start:end]], [rest]
    is [text[end:]], and [in_spaces], [in_breaks] are the two flags. *)
Fixpoint single_quoted_loop (indent : option nat) (rest pending : string)
    (in_spaces in_breaks : bool) (e : emitter) : emitter :=
  let at_end := match rest with EmptyString => true | _ => false end in
  let ch_is (p : ascii -> bool) :=
    match rest with String ch _ => p ch | EmptyString => false end in
  let flushed :=
    if in_spaces then
      if at_end || negb (ch_is (Ascii.eqb " ")) then (write pending e, true) else (e, false)
    else if in_breaks then
      if at_end || negb (ch_is is_break) then
        let e1 := if prefix nl pending then write_line_break nl e else e in
        (write_indent indent (write_breaks pending e1), true)
      else (e, false)
    else
      if at_end || ch_is (fun ch => Ascii.eqb ch " " || is_break ch || Ascii.eqb ch SQ) then
        (match pending with EmptyString => e | _ => write pending e end, true)
      else (e, false) in
  let (e1, cut) := flushed in
  let pending1 := if cut then "" else pending in
  match rest with
  | EmptyString => e1
  | String ch rest' =>
      if Ascii.eqb ch SQ then
        single_quoted_loop indent rest' "" false false (write (String SQ (chr SQ)) e1)
      else
        single_quoted_loop indent rest' (pending1 ++ chr ch)
          (Ascii.eqb ch " ") (is_break ch) e1
  end.

Definition write_single_quoted (indent : option nat) (text : string) (e : emitter) : emitter :=
  write_indicator (chr SQ) false false false
    (single_quoted_loop indent text "" false false
       (write_indicator (chr SQ) true false false e)).

Definition HEX : string := "0123456789ABCDEF".

Definition hex_upper (d : nat) : ascii :=
  match get d HEX with
  | Some c => c
  | None => "0"%char
  end.

(** [ESCAPE_REPLACEMENTS], then the [\xXX] form. *)
Definition double_quoted_escape (ch : ascii) : string :=
  let short (c : string) := String BSL c in
  if Ascii.eqb ch "000" then short "0"
  else if Ascii.eqb ch "007" then short "a"
  else if Ascii.eqb ch "008" then short "b"
  else if Ascii.eqb ch TAB then short "t"
  else if Ascii.eqb ch LF then short "n"
  else if Ascii.eqb ch "011" then short "v"
  else if Ascii.eqb ch "012" then short "f"
  else if Ascii.eqb ch CR then short "r"
  else if Ascii.eqb ch "027" then short "e"
  else if Ascii.eqb ch DQ then short dq
  else if Ascii.eqb ch BSL then short (chr BSL)
  else if Ascii.eqb ch NEL then short "N"
  else if Ascii.eqb ch "160" then short "_"
  else short (String "x" (String (hex_upper (code ch / 16)) (chr (hex_upper (code ch mod 16))))).

(** The loop of [write_double_quoted], a character at a time. *)
Fixpoint double_quoted_loop (text : string) (e : emitter) : emitter :=
  match text with
  | EmptyString => e
  | String ch text' =>
      let plain := ((32 <=? code ch) && (code ch <=? 126))%nat
                   && negb (Ascii.eqb ch DQ) && negb (Ascii.eqb ch BSL) in
      double_quoted_loop text'
        (write (if plain then chr ch else double_quoted_escape ch) e)
  end.

Definition write_double_quoted (text : string) (e : emitter) : emitter :=
  write_indicator dq false false false
    (double_quoted_loop text (write_indicator dq true false false e)).

(** The contexts that [expect_node] records. *)
Record context : Type := {
  root_context : bool;
  sequence_context : bool;
  mapping_context : bool;
  simple_key_context : bool
}.

Definition ctx (root sequence mapping simple_key : bool) : context :=
  {| root_context := root; sequence_context := sequence;
     mapping_context := mapping; simple_key_context := simple_key |}.

(** [increase_indent]. *)
Definition increase_indent (flow indentless : bool) (indent : option nat) : option nat :=
  match indent with
  | None => Some (if flow then 2 else 0)
  | Some i => if indentless then Some i else Some (i + 2)
  end.

(** [expect_scalar] for a scalar of tag [t] and text [value].  No tag is
    written: the event is implicit for the style chosen (a string that another
    tag would claim is never left plain, and the text of a number, a boolean
    or [None] is always left plain). *)
Definition expect_scalar (t : tag) (value : string) (indent : option nat)
    (c : context) (e : emitter) : emitter :=
  let indent := increase_indent true false indent in
  let implicit0 := tag_eqb t (resolve value) in
  match choose_scalar_style implicit0 (simple_key_context c) (analyze_scalar value) with
  | Plain => write_plain (root_context c) value e
  | SingleQuoted => write_single_quoted indent value e
  | DoubleQuoted => write_double_quoted value e
  end.

(** [check_simple_key] for a scalar key: its length counts the prepared tag
    [!!str], five characters long. *)
Definition check_simple_key (key : string) : bool :=
  let a := analyze_scalar key in
  (5 + String.length key <? 128)%nat && negb (empty a) && negb (multiline a).

(** [sorted(mapping.items())].  The keys of a [dict] are distinct, so two
    items are ordered by their keys alone, as strings. *)
Fixpoint insert_item {V : Type} (kv : string * V) (l : list (string * V)) : list (string * V) :=
  match l with
  | [] => [kv]
  | kv' :: l' =>
      if String.leb (fst kv) (fst kv') then kv :: l
      else kv' :: insert_item kv l'
  end.

Fixpoint sorted {V : Type} (l : list (string * V)) : list (string * V) :=
  match l with
  | [] => []
  | kv :: l' => insert_item kv (sorted l')
  end.

Definition emit : Type := option nat -> context -> emitter -> emitter.

(** [expect_block_sequence] and its items. *)
Fixpoint block_sequence_items (indent : option nat) (items : list emit) (e : emitter) : emitter :=
  match items with
  | [] => e
  | item :: items' =>
      block_sequence_items indent items'
        (item indent (ctx false true false false)
           (write_indicator "-" true false true (write_indent indent e)))
  end.

(** [expect_block_mapping] and its keys and values. *)
Fixpoint block_mapping_items (indent : option nat) (items : list (string * emit))
    (e : emitter) : emitter :=
  match items with
  | [] => e
  | (key, value) :: items' =>
      let e := write_indent indent e in
      let e :=
        if check_simple_key key then
          let e := expect_scalar TagStr key indent (ctx false false true true) e in
          write_indicator ":" false false false e
        else
          let e := write_indicator "?" true false true e in
          let e := expect_scalar TagStr key indent (ctx false false true false) e in
          write_indicator ":" true false true (write_indent indent e) in
      block_mapping_items indent items' (value indent (ctx false false true false) e)
  end.

(** [expect_node], the representer and the serializer in one recursion. *)
Fixpoint expect_node (nd : node) : emit :=
  match nd with
  | PyNone => expect_scalar TagNull "null"
  | PyBool true => expect_scalar TagBool "true"
  | PyBool false => expect_scalar TagBool "false"
  | PyInt z => expect_scalar TagInt (PyJson.str_of_int z)
  | PyStr s => expect_scalar TagStr s
  | PyList [] =>
      fun _ _ e =>
        write_indicator "]" false false false (write_indicator "[" true true false e)
  | PyList items =>
      let items := map expect_node items in
      fun indent c e =>
        let indentless := mapping_context c && negb (indention e) in
        block_sequence_items (increase_indent false indentless indent) items e
  | PyDict [] =>
      fun _ _ e =>
        write_indicator "}" false false false (write_indicator "{" true true false e)
  | PyDict entries =>
      let items :=
        (fix represent (l : list (string * node)) : list (string * emit) :=
           match l with
           | [] => []
           | (k, v) :: l' => (k, expect_node v) :: represent l'
           end) entries in
      fun indent _ e =>
        block_mapping_items (increase_indent false false indent) (sorted items) e
  end.

(** The document: implicit start, the root node, the end of the document and
    of the stream. *)
Definition emit_document (nd : node) : emitter :=
  let e := expect_node nd None (ctx true false false false) initial in
  let e := write_indent None e in
  if open_ended e then
    write_indent None (write_indicator "..." true false false e)
  else e.

Definition dump (nd : node) : string := out (emit_document nd).

End PyYaml.

(** ** [_AWS_FN_RE]

    [re.compile(r"('[{]{2} (.*?) [}]{2}')", re.DOTALL)]: a quote, two opening
    braces and a space; then as few characters as possible, of any kind; then
    a space, two closing braces and a quote.  Group 1 is the whole match and
    group 2 the text between the two markers. *)

Record re_match : Type := {
  m_start : nat;
  m_end : nat;
  m_group2 : string
}.

Definition OPENING : string := "'{{ ".
Definition CLOSING : string := " }}'".

(** The language of the pattern; with [re.DOTALL] the dot stands for any
    character. *)
Definition _AWS_FN_RE : PyRe.regex :=
  PyRe.seq [PyRe.lit OPENING; PyRe.Star (PyRe.Sym (fun _ => true)); PyRe.lit CLOSING].

(** The matcher finds what the backtracking matcher of [re] finds for this
    pattern: the leftmost opening marker that a closing marker follows, and
    the first closing marker after it.  [lazy_until_closing] is the lazy
    [(.*?)] followed by the closing marker, tried at the head of [s]: the
    shortest text that the closing marker follows. *)
Fixpoint lazy_until_closing (s : string) : option string :=
  if prefix CLOSING s then Some ""
  else
    match s with
    | EmptyString => None
    | String c s' => option_map (String c) (lazy_until_closing s')
    end.

(** The pattern tried at the head of [s]: group 2 of the match, if any. *)
Definition match_here (s : string) : option string :=
  if prefix OPENING s then lazy_until_closing (drop 4 s) else None.

(** [_AWS_FN_RE.search(text, pos)], where [s] is [text[pos:]]: the leftmost
    position at which the pattern matches. *)
Fixpoint search (s : string) (pos : nat) : option re_match :=
  match match_here s with
  | Some g =>
      Some {| m_start := pos; m_end := pos + 4 + String.length g + 4; m_group2 := g |}
  | None =>
      match s with
      | EmptyString => None
      | String _ s' => search s' (S pos)
      end
  end.

(** [_AWS_FN_RE.finditer(text)]: the matches from left to right, each search
    resumed where the match before it ended. *)
Fixpoint finditer_from (fuel : nat) (text : string) (pos : nat) : list re_match :=
  match fuel with
  | O => []
  | S fuel' =>
      match search (drop pos text) pos with
      | None => []
      | Some m => m :: finditer_from fuel' text (m_end m)
      end
  end.

Definition finditer (text : string) : list re_match :=
  finditer_from (S (String.length text)) text 0.

(** ** [generate_user_data] *)

Definition contains (key : string) (entries : list (string * node)) : bool :=
  existsb (fun kv => String.eqb key (fst kv)) entries.

(** The condition of the first branch of [transform]. *)
Definition is_lookup (entries : list (string * node)) : bool :=
  contains "Stack" entries && contains "Output" entries.

Definition is_aws_fn (name : string) : bool :=
  String.eqb name "Ref" || prefix "Fn::" name.

(** The string that [transform] puts in the place of an AWS function. *)
Definition placeholder (nd : node) : string := "{{ " ++ PyJson.dumps nd ++ " }}".

Definition HEADER : string := "#taupage-ami-config" ++ nl.

Section GenerateUserData.

(** [senza.aws.resolve_referenced_resource] lives in another module of the
    package and talks to AWS: it is a parameter here, and may raise. *)
Variable resolve_referenced_resource : node -> string -> result node.
Variable region : string.

Definition call_resolver (nd : node) : M node :=
  ([nd], resolve_referenced_resource nd region).

Fixpoint transform (nd : node) : M node :=
  match nd with
  | PyDict entries =>
      let num_keys := List.length entries in
      if contains "Stack" entries && contains "Output" entries then
        call_resolver nd
      else if (0 <? num_keys)%nat then
        match entries with
        | [] => ret nd
        | (key, _) :: _ =>
            if (num_keys =? 1)%nat && is_aws_fn key then
              ret (PyStr ("{{ " ++ PyJson.dumps nd ++ " }}"))
            else
              entries' <-
                (fix items (l : list (string * node)) : M (list (string * node)) :=
                   match l with
                   | [] => ret []
                   | (key, value) :: l' =>
                       value' <- transform value ;;
                       l'' <- items l' ;;
                       ret ((key, value') :: l'')
                   end) entries ;;
              ret (PyDict entries')
        end
      else ret nd
  | PyList subnodes =>
      subnodes' <-
        (fix each (l : list node) : M (list node) :=
           match l with
           | [] => ret []
           | subnode :: l' =>
               subnode' <- transform subnode ;;
               l'' <- each l' ;;
               ret (subnode' :: l'')
           end) subnodes ;;
      ret (PyList subnodes')
  | _ => ret nd
  end.

(** The dictionary comprehension and the list comprehension of [transform],
    on their own. *)
Fixpoint transform_items (l : list (string * node)) : M (list (string * node)) :=
  match l with
  | [] => ret []
  | (key, value) :: l' =>
      value' <- transform value ;;
      l'' <- transform_items l' ;;
      ret ((key, value') :: l'')
  end.

Fixpoint transform_each (l : list node) : M (list node) :=
  match l with
  | [] => ret []
  | subnode :: l' =>
      subnode' <- transform subnode ;;
      l'' <- transform_each l' ;;
      ret (subnode' :: l'')
  end.

End GenerateUserData.

(** The loop of [split]: [ms] are the matches still to come. *)
Fixpoint split_loop (text : string) (ms : list re_match) (last_pos : nat)
    (parts : list node) : result (list node) :=
  match ms with
  | [] => Ok (parts ++ [PyStr (drop last_pos text)])%list
  | m :: ms' =>
      match PyJson.loads (m_group2 m) with
      | Ok v =>
          split_loop text ms' (m_end m)
            (parts ++ [PyStr (slice text last_pos (m_start m)); v])%list
      | Raise e => Raise e
      end
  end.

Definition split (text : string) : result (list node) :=
  split_loop text (finditer text) 0 [].

(** The last four lines of [generate_user_data]. *)
Definition collapse (parts : list node) : node :=
  if (List.length parts =? 1)%nat then nth 0 parts PyNone
  else PyDict [("Fn::Join", PyList [PyStr ""; PyList parts])].

Definition generate_user_data (resolve_referenced_resource : node -> string -> result node)
    (taupage_config : node) (region : string) : M node :=
  transformed <- transform resolve_referenced_resource region taupage_config ;;
  let yaml_text := PyYaml.dump transformed in
  parts <- lift (split (HEADER ++ yaml_text)) ;;
  ret (collapse parts).

(** ** Shapes of nodes *)

(** Induction over [node], with the hypothesis on every element of a list
    and every value of a dictionary. *)
Definition node_ind (P : node -> Prop)
    (HNone : P PyNone)
    (HBool : forall b, P (PyBool b))
    (HInt : forall z, P (PyInt z))
    (HStr : forall s, P (PyStr s))
    (HList : forall items, Forall P items -> P (PyList items))
    (HDict : forall entries, Forall (fun kv => P (snd kv)) entries -> P (PyDict entries))
  : forall nd, P nd :=
  fix F (nd : node) : P nd :=
    match nd with
    | PyNone => HNone
    | PyBool b => HBool b
    | PyInt z => HInt z
    | PyStr s => HStr s
    | PyList items =>
        HList items
          ((fix G (l : list node) : Forall P l :=
              match l with
              | [] => Forall_nil _
              | x :: l' => Forall_cons x (F x) (G l')
              end) items)
    | PyDict entries =>
        HDict entries
          ((fix G (l : list (string * node)) : Forall (fun kv => P (snd kv)) l :=
              match l with
              | [] => Forall_nil _
              | kv :: l' => Forall_cons kv (F (snd kv)) (G l')
              end) entries)
    end.

Fixpoint node_size (nd : node) : nat :=
  match nd with
  | PyList items => S (fold_right (fun x n => node_size x + n) 0 items)
  | PyDict entries => S (fold_right (fun kv n => node_size (snd kv) + n) 0 entries)
  | _ => 1
  end.

(** The second branch of [transform]: one entry, whose key names an AWS
    function. *)
Definition is_deferred (entries : list (string * node)) : bool :=
  match entries with
  | [(key, _)] => is_aws_fn key
  | _ => false
  end.

(** Some dictionary of the tree, at any depth, holds both keys [Stack] and
    [Output]. *)
Fixpoint has_lookup (nd : node) : bool :=
  match nd with
  | PyDict entries =>
      is_lookup entries || existsb (fun kv => has_lookup (snd kv)) entries
  | PyList items => existsb has_lookup items
  | _ => false
  end.

(** No dictionary of the tree, at any depth, is taken by the first or the
    second branch of [transform]. *)
Fixpoint expression_free (nd : node) : bool :=
  match nd with
  | PyDict entries =>
      negb (is_lookup entries) && negb (is_deferred entries)
      && forallb (fun kv => expression_free (snd kv)) entries
  | PyList items => forallb expression_free items
  | _ => true
  end.

(** The ResourceLookupNode as the specification words it: a mapping of
    exactly the two entries [Stack] and [Output], both strings. *)
Definition spec_ResourceLookupNode (nd : node) : bool :=
  match nd with
  | PyDict [(k1, PyStr _); (k2, PyStr _)] =>
      (String.eqb k1 "Stack" && String.eqb k2 "Output")
      || (String.eqb k1 "Output" && String.eqb k2 "Stack")
  | _ => false
  end.

(** Some node of the tree, at any depth, is a ResourceLookupNode in the
    sense of the specification. *)
Fixpoint spec_has_lookup (nd : node) : bool :=
  spec_ResourceLookupNode nd ||
  match nd with
  | PyDict entries => existsb (fun kv => spec_has_lookup (snd kv)) entries
  | PyList items => existsb spec_has_lookup items
  | _ => false
  end.

(** A split result as the specification draws it: a literal, then pairs of
    an expression and a literal. *)
Fixpoint alternate (first : string) (rest : list (node * string)) : list node :=
  match rest with
  | [] => [PyStr first]
  | (expr, literal) :: rest' => PyStr first :: expr :: alternate literal rest'
  end.

(** A call that failed is the outcome of the computation. *)
Definition fails_through (resolver : node -> string -> result node) (region : string)
    {A : Type} (m : M A) : Prop :=
  forall nd e, In nd (calls_of m) -> resolver nd region = Raise e -> outcome m = Raise e.

(** The keys of a dictionary are distinct, as those of a Python [dict]
    are, in the whole tree. *)
Fixpoint distinct (l : list string) : bool :=
  match l with
  | [] => true
  | k :: l' => negb (existsb (String.eqb k) l') && distinct l'
  end.

Fixpoint well_formed (nd : node) : bool :=
  match nd with
  | PyDict entries =>
      distinct (map fst entries) && forallb (fun kv => well_formed (snd kv)) entries
  | PyList items => forallb well_formed items
  | _ => true
  end.

(** The decoder reads [nd] back from its JSON text, whatever follows it in
    the document. *)
Definition reads_back (nd : node) : Prop :=
  forall fuel rest,
    2 * node_size nd <= fuel -> PyJson.delimited rest = true ->
    PyJson.scan_once fuel (PyJson.dumps nd ++ rest) = Ok (nd, rest).

Fixpoint all_chars (p : ascii -> bool) (s : string) : bool :=
  match s with
  | EmptyString => true
  | String c s' => p c && all_chars p s'
  end.




(** What the representer hands to the emitter for the entries of a
    mapping. *)
Definition represent (entries : list (string * node)) : list (string * PyYaml.emit) :=
  map (fun kv => (fst kv, PyYaml.expect_node (snd kv))) entries.

(** The lookups that [transform] meets on its walk, in the order of the
    walk: those not inside an AWS function. *)
Fixpoint lookups_visited (nd : node) : list node :=
  match nd with
  | PyDict entries =>
      if is_lookup entries then [nd]
      else if is_deferred entries then []
      else flat_map (fun kv => lookups_visited (snd kv)) entries
  | PyList items => flat_map lookups_visited items
  | _ => []
  end.

(** The log of a walk that was to make the calls [visited]: all of them,
    answered, when the walk ends well; otherwise the calls up to the first
    that failed, whose error is the outcome. *)
Definition walk_log (resolver : node -> string -> result node) (region : string)
    (visited : list node) {A : Type} (m : M A) : Prop :=
  match outcome m with
  | Ok _ =>
      calls_of m = visited
      /\ Forall (fun nd => exists v, resolver nd region = Ok v) visited
  | Raise e =>
      exists before failed after,
        visited = (before ++ failed :: after)%list
        /\ calls_of m = (before ++ [failed])%list
        /\ Forall (fun nd => exists v, resolver nd region = Ok v) before
        /\ resolver failed region = Raise e
  end.

(** ** Sample inputs *)

Definition core_vpc : node := PyDict [("Stack", PyStr "core"); ("Output", PyStr "VpcId")].

Definition lookup_with_extra : node :=
  PyDict [("Stack", PyStr "core"); ("Output", PyStr "VpcId"); ("Extra", PyInt 1)].

Definition lookup_not_strings : node :=
  PyDict [("Output", PyList []); ("Stack", PyNone)].

(** A resolver that knows one output of one stack. *)
Definition resolve_vpc (nd : node) (region : string) : result node :=
  match nd with
  | PyDict [("Stack", PyStr "core"); ("Output", PyStr "VpcId")] => Ok (PyStr "vpc-123")
  | _ => Raise (ResolverError "not found")
  end.

Definition never_found (nd : node) (region : string) : result node :=
  Raise (ResolverError "not found").


Definition failing_config : node :=
  PyDict [("vpc", core_vpc); ("db", PyDict [("Stack", PyStr "db"); ("Output", PyStr "Host")])].





Definition nested_lookup_config : node :=
  PyDict [("a", PyDict [("Fn::GetAtt", core_vpc)])].

Definition unordered_config : node := PyDict [("b", PyInt 1); ("a", PyInt 2)].

Definition sub_with_quote : node := PyDict [("Fn::Sub", PyStr "it's ${AWS::Region}")].

Definition ref_with_marker : node := PyDict [("Ref", PyStr "x }}'y")].

Definition join_of_sub : node :=
  PyDict [("Fn::Join", PyList [PyStr ""; PyList [PyDict [("Fn::Sub", PyStr "it's")]]])].

(** ** The text that [split] cuts *)

(** The literals of a split result with the matched texts put back between
    them: the opening marker, group 2 and the closing marker of each match. *)
Fixpoint reassemble (first : string) (ms : list re_match) (rest : list (node * string))
    : string :=
  match ms, rest with
  | m :: ms', (_, literal) :: rest' =>
      first ++ OPENING ++ m_group2 m ++ CLOSING ++ reassemble literal ms' rest'
  | _, _ => first
  end.

(** ** Exceptions and effects of the component

    [error] holds the exceptions that can leave the functions of the module
    other than [generate_user_data].  A [click.UsageError] is kept as the
    place that raises it and the value put in its message, not as the text
    of the message.  [ExternalError] is an exception raised inside a function
    of another module, [UserDataError] one that leaves [generate_user_data],
    and [Unmodelled] is no exception: it marks a value whose text this
    development does not build. *)

(** [pierone.api.DockerImage]: a named tuple; [registry] is [None] or a
    string. *)
Record DockerImage : Type := {
  registry : option string;
  team : string;
  artifact : string;
  tag : string
}.

Inductive usage : Type :=
| InvalidApplicationId
| InvalidApplicationVersion
| Unauthorized (docker_image : DockerImage)
| ImageDoesNotExist (docker_image : DockerImage)
| RuntimeNotDocker
| SourceNotSpecified.

Inductive error : Type :=
| UsageError (raised : usage)
| TypeError
| KeyError (key : string)
| AttributeError
| ExternalError (message : string)
| UserDataError (e : exn)
| Unmodelled.

Inductive res (A : Type) : Type :=
| Done (a : A)
| Failed (e : error).
Arguments Done {A} a.
Arguments Failed {A} e.

(** What a function of another module does when it is called: it returns a
    value or raises an exception, kept as [ExternalError]. *)
Inductive external (A : Type) : Type :=
| Returned (a : A)
| Raised (message : string).
Arguments Returned {A} a.
Arguments Raised {A} message.

Definition from_external {A : Type} (r : external A) : res A :=
  match r with
  | Returned a => Done a
  | Raised message => Failed (ExternalError message)
  end.

(** ** [check_application_id] and [check_application_version] *)

Definition in_range (lo hi c : ascii) : bool :=
  ((code lo <=? code c) && (code c <=? code hi))%nat.

Definition lower (c : ascii) : bool := in_range "a" "z" c.
Definition upper (c : ascii) : bool := in_range "A" "Z" c.
Definition digit (c : ascii) : bool := in_range "0" "9" c.

(** [[a-z0-9-]], [[a-z0-9]], [[A-Za-z0-9]] and [[A-Za-z0-9._-]]. *)
Definition id_char (c : ascii) : bool := lower c || digit c || Ascii.eqb c "-".
Definition id_last (c : ascii) : bool := lower c || digit c.
Definition alnum (c : ascii) : bool := upper c || lower c || digit c.
Definition version_char (c : ascii) : bool :=
  upper c || lower c || digit c || Ascii.eqb c "." || Ascii.eqb c "_" || Ascii.eqb c "-".

(** [re.compile(r"^[a-z][a-z0-9-]*[a-z0-9]$")], between its two anchors. *)
Definition APPLICATION_ID_RE : PyRe.regex :=
  PyRe.seq [PyRe.Sym lower; PyRe.Star (PyRe.Sym id_char); PyRe.Sym id_last].

(** [re.compile(r"^[A-Za-z0-9](?:[A-Za-z0-9._-]*[A-Za-z0-9])?$")], between
    its two anchors. *)
Definition APPLICATION_VERSION_RE : PyRe.regex :=
  PyRe.seq [PyRe.Sym alnum;
            PyRe.opt (PyRe.seq [PyRe.Star (PyRe.Sym version_char); PyRe.Sym alnum])].

(** [pattern.match(value)] as a condition, for a pattern between [^] and [$]:
    a value that is not a string raises [TypeError]. *)
Definition re_match_anchored (r : PyRe.regex) (value : node) : res bool :=
  match value with
  | PyStr s => Done (PyRe.match_anchored r s)
  | _ => Failed TypeError
  end.

Definition check_application_id (app_id : node) : res unit :=
  match re_match_anchored APPLICATION_ID_RE app_id with
  | Done true => Done tt
  | Done false => Failed (UsageError InvalidApplicationId)
  | Failed e => Failed e
  end.

Definition check_application_version (version : node) : res unit :=
  match re_match_anchored APPLICATION_VERSION_RE version with
  | Done true => Done tt
  | Done false => Failed (UsageError InvalidApplicationVersion)
  | Failed e => Failed e
  end.

(** ** Python operations on values *)

(** [bool(value)]. *)
Definition truthy (value : node) : bool :=
  match value with
  | PyNone => false
  | PyBool b => b
  | PyInt z => negb (z =? 0)%Z
  | PyStr s => negb (String.eqb s "")
  | PyList items => negb (Nat.eqb (List.length items) 0)
  | PyDict entries => negb (Nat.eqb (List.length entries) 0)
  end.

(** [value == text], where [text] is a string. *)
Definition is_str (text : string) (value : node) : bool :=
  match value with
  | PyStr s => String.eqb s text
  | _ => false
  end.

(** [sub in s], for two strings. *)
Fixpoint is_substring (sub s : string) : bool :=
  prefix sub s
  || match s with
     | EmptyString => false
     | String _ s' => is_substring sub s'
     end.

Fixpoint dict_get (key : string) (entries : list (string * node)) : option node :=
  match entries with
  | [] => None
  | (k, v) :: entries' => if String.eqb key k then Some v else dict_get key entries'
  end.

(** [key in container], where [key] is a string. *)
Definition py_in (key : string) (container : node) : res bool :=
  match container with
  | PyDict entries => Done (contains key entries)
  | PyList items => Done (existsb (is_str key) items)
  | PyStr s => Done (is_substring key s)
  | _ => Failed TypeError
  end.

(** [container[key]], where [key] is a string. *)
Definition getitem (container : node) (key : string) : res node :=
  match container with
  | PyDict entries =>
      match dict_get key entries with
      | Some v => Done v
      | None => Failed (KeyError key)
      end
  | _ => Failed TypeError
  end.

(** [container.get(key)]. *)
Definition py_get (container : node) (key : string) : res node :=
  match container with
  | PyDict entries =>
      match dict_get key entries with
      | Some v => Done v
      | None => Done PyNone
      end
  | _ => Failed AttributeError
  end.

(** [container[key] = value], where [key] is a string: the container
    afterwards. *)
Definition setitem (container : node) (key : string) (value : node) : res node :=
  match container with
  | PyDict entries => Done (PyDict (PyJson.dict_set key value entries))
  | _ => Failed TypeError
  end.

(** [container[k1]...[kn][key] = value]: the outermost container afterwards,
    every container on the way holding the one that was changed. *)
Fixpoint set_path (container : node) (path : list string) (key : string) (value : node)
    : res node :=
  match path with
  | [] => setitem container key value
  | k :: path' =>
      match getitem container k with
      | Done inner =>
          match set_path inner path' key value with
          | Done inner' => setitem container k inner'
          | Failed e => Failed e
          end
      | Failed e => Failed e
      end
  end.

(** [container[k1]...[kn]]. *)
Fixpoint get_path (container : node) (path : list string) : res node :=
  match path with
  | [] => Done container
  | k :: path' =>
      match getitem container k with
      | Done inner => get_path inner path'
      | Failed e => Failed e
      end
  end.

(** [str(value)] as [str.format] puts it in the place of [{}]; the text of a
    list or of a dictionary is left out. *)
Definition str_of (value : node) : res string :=
  match value with
  | PyNone => Done "None"
  | PyBool true => Done "True"
  | PyBool false => Done "False"
  | PyInt z => Done (PyJson.str_of_int z)
  | PyStr s => Done s
  | _ => Failed Unmodelled
  end.

(** [a + b], where [b] is a string. *)
Definition add_str (a : node) (b : string) : res string :=
  match a with
  | PyStr s => Done (s ++ b)
  | _ => Failed TypeError
  end.

(** ** Calls that leave the module

    A computation of the component returns the calls it made to the
    registries, to the token store and to the resolver, and what it printed,
    in order, with its result or the exception that ended it. *)

(** The two warnings of [check_docker_image_exists], without their text. *)
Inductive warning : Type :=
| SeverityFixAvailable (severity : node)
| NotChecked.

Inductive event : Type :=
| ResolveReferencedResource (nd : node)
| GetExistingToken (name : string)
| ImageExists (docker_image : DockerImage) (token : node)
| DockerImageExists (name : string)
| GetImageTag (docker_image : DockerImage) (token : node)
| Secho (message : warning).

Definition io (A : Type) : Type := list event * res A.

Definition io_ret {A : Type} (a : A) : io A := ([], Done a).

Definition io_fail {A : Type} (e : error) : io A := ([], Failed e).

Definition io_bind {A B : Type} (m : io A) (f : A -> io B) : io B :=
  match m with
  | (events, Done a) => let (events', r) := f a in ((events ++ events')%list, r)
  | (events, Failed e) => (events, Failed e)
  end.

(** A step that makes no call. *)
Definition io_lift {A : Type} (r : res A) : io A := ([], r).

(** A call that is recorded, with what it returned or raised. *)
Definition call {A : Type} (ev : event) (r : external A) : io A := ([ev], from_external r).

(** A call that is not recorded. *)
Definition pure_call {A : Type} (r : external A) : io A := ([], from_external r).

Definition events_of {A : Type} (m : io A) : list event := fst m.
Definition result_of {A : Type} (m : io A) : res A := snd m.

Declare Scope io_scope.
Delimit Scope io_scope with io.
Notation "x <~ m ;; k" := (io_bind m (fun x => k))
  (at level 61, m at next level, right associativity) : io_scope.
Notation "m ;;; k" := (io_bind m (fun _ => k))
  (at level 61, right associativity) : io_scope.
Local Open Scope io_scope.

(** [generate_user_data] as a step of the component. *)
Definition user_data (m : M node) : io node :=
  (map ResolveReferencedResource (calls_of m),
   match outcome m with
   | Ok v => Done v
   | Raise e => Failed (UserDataError e)
   end).

Section Component.

(** The functions of other modules, as what they return or raise:
    [zign.api.get_existing_token], [pierone.api.image_exists],
    [senza.docker.docker_image_exists], [pierone.api.get_image_tag],
    [str] of a [DockerImage], [pierone.api.DockerImage.parse],
    [senza.components.auto_scaling_group.component_auto_scaling_group], which
    returns the definition and may change the configuration it is given,
    [senza.utils.ensure_keys], which changes the dictionary it is given,
    and [senza.aws.resolve_referenced_resource]. *)
Variable get_existing_token : string -> external node.
Variable image_exists : DockerImage -> node -> external node.
Variable docker_image_exists : string -> external node.
Variable get_image_tag : DockerImage -> node -> external node.
Variable image_name : DockerImage -> string.
Variable parse : node -> external DockerImage.
Variable Args AccountInfo : Type.
Variable args_region : Args -> string.
Variable component_auto_scaling_group :
  node -> node -> Args -> node -> bool -> AccountInfo -> external (node * node).
Variable ensure_keys : node -> list string -> external node.
Variable resolve_referenced_resource : node -> string -> result node.

(** The first [if] of [check_docker_image_exists]: the token and whether
    the image exists. *)
Definition image_lookup (docker_image : DockerImage) : io (node * node) :=
  match registry docker_image with
  | None => io_fail TypeError
  | Some name =>
      if is_substring "pierone" name then
        token <~ call (GetExistingToken "pierone") (get_existing_token "pierone") ;;
        if negb (truthy token) then io_fail (UsageError (Unauthorized docker_image))
        else
          token <~ io_lift (getitem token "access_token") ;;
          exists_ <~ call (ImageExists docker_image token) (image_exists docker_image token) ;;
          io_ret (token, exists_)
      else
        exists_ <~ call (DockerImageExists (image_name docker_image))
                     (docker_image_exists (image_name docker_image)) ;;
        io_ret (PyNone, exists_)
  end.

(** The second [if]: the warning to print, if any. *)
Definition warning_for (image_tag : node) : res (option warning) :=
  match image_tag with
  | PyNone => Done (Some NotChecked)
  | _ =>
      match py_in "severity_fix_available" image_tag with
      | Done true =>
          match py_get image_tag "severity_fix_available" with
          | Done severity =>
              if negb (is_str "COULDNT_FIGURE_OUT" severity
                       || is_str "NO_CVES_FOUND" severity)
              then
                match getitem image_tag "severity_fix_available" with
                | Done severity' => Done (Some (SeverityFixAvailable severity'))
                | Failed e => Failed e
                end
              else Done None
          | Failed e => Failed e
          end
      | Done false => Done (Some NotChecked)
      | Failed e => Failed e
      end
  end.

Definition check_docker_image_exists (docker_image : DockerImage) : io node :=
  found <~ image_lookup docker_image ;;
  let (token, exists_) := found in
  if negb (truthy exists_) then io_fail (UsageError (ImageDoesNotExist docker_image))
  else
    image_tag <~ call (GetImageTag docker_image token) (get_image_tag docker_image token) ;;
    warn <~ io_lift (warning_for image_tag) ;;
    match warn with
    | None => io_ret (PyBool true)
    | Some warn_msg => call (Secho warn_msg) (Returned tt) ;;; io_ret (PyBool true)
    end.

(** The three defaults of the Taupage configuration. *)
Definition default_notify_cfn (configuration info taupage_config : node) : res node :=
  match py_in "notify_cfn" taupage_config with
  | Done true => Done taupage_config
  | Done false =>
      match getitem info "StackName" with
      | Done stack_name =>
          match getitem info "StackVersion" with
          | Done stack_version =>
              match str_of stack_name with
              | Done name_text =>
                  match str_of stack_version with
                  | Done version_text =>
                      match getitem configuration "Name" with
                      | Done name =>
                          setitem taupage_config "notify_cfn"
                            (PyDict [("stack", PyStr (name_text ++ "-" ++ version_text));
                                     ("resource", name)])
                      | Failed e => Failed e
                      end
                  | Failed e => Failed e
                  end
              | Failed e => Failed e
              end
          | Failed e => Failed e
          end
      | Failed e => Failed e
      end
  | Failed e => Failed e
  end.

Definition default_from_info (key info_key : string) (info taupage_config : node)
    : res node :=
  match py_in key taupage_config with
  | Done true => Done taupage_config
  | Done false =>
      match getitem info info_key with
      | Done value => setitem taupage_config key value
      | Failed e => Failed e
      end
  | Failed e => Failed e
  end.

(** The component changes the dictionaries it is given in place: it
    returns the definition, and the configuration is given back with it, as
    the caller finds it afterwards, the Taupage configuration in it
    completed.  What a run that raises leaves in them is not modelled. *)
Definition component_taupage_auto_scaling_group
    (definition configuration : node) (args : Args) (info : node) (force : bool)
    (account_info : AccountInfo) : io (node * node) :=
  has_image <~ io_lift (py_in "Image" configuration) ;;
  configuration <~ io_lift (if has_image then Done configuration
                            else setitem configuration "Image" (PyStr "LatestTaupageImage")) ;;
  returned <~ pure_call (component_auto_scaling_group
                           definition configuration args info force account_info) ;;
  let (definition, configuration) := returned in
  taupage_config <~ io_lift (getitem configuration "TaupageConfig") ;;
  taupage_config <~ io_lift (default_notify_cfn configuration info taupage_config) ;;
  taupage_config <~ io_lift (default_from_info "application_id" "StackName"
                               info taupage_config) ;;
  taupage_config <~ io_lift (default_from_info "application_version" "StackVersion"
                               info taupage_config) ;;
  application_id <~ io_lift (getitem taupage_config "application_id") ;;
  io_lift (check_application_id application_id) ;;;
  application_version <~ io_lift (getitem taupage_config "application_version") ;;
  io_lift (check_application_version application_version) ;;;
  runtime <~ io_lift (py_get taupage_config "runtime") ;;
  if negb (is_str "Docker" runtime) then io_fail (UsageError RuntimeNotDocker)
  else
    source <~ io_lift (py_get taupage_config "source") ;;
    if negb (truthy source) then io_fail (UsageError SourceNotSpecified)
    else
      docker_image <~ pure_call (parse source) ;;
      (if negb force
          && match registry docker_image with
             | Some name => negb (String.eqb name "")
             | None => false
             end
       then check_docker_image_exists docker_image ;;; io_ret tt
       else io_ret tt) ;;;
      userdata <~ user_data (generate_user_data resolve_referenced_resource
                               taupage_config (args_region args)) ;;
      name <~ io_lift (getitem configuration "Name") ;;
      config_name <~ io_lift (add_str name "Config") ;;
      definition <~ pure_call (ensure_keys definition
                                 ["Resources"; config_name; "Properties"; "UserData"]) ;;
      definition <~ io_lift (set_path definition
                               ["Resources"; config_name; "Properties"; "UserData"]
                               "Fn::Base64" userdata) ;;
      configuration <~ io_lift (setitem configuration "TaupageConfig" taupage_config) ;;
      io_ret (definition, configuration).

End Component.

(** ** Sample answers of the other modules *)

Definition sample_image : DockerImage :=
  {| registry := Some "pierone.example.org"; team := "team"; artifact := "app"; tag := "1.0" |}.

Definition hub_image : DockerImage :=
  {| registry := Some "registry.example.org"; team := "team"; artifact := "app";
     tag := "1.0" |}.

Definition sample_token (name : string) : external node :=
  Returned (PyDict [("access_token", PyStr "secret")]).

Definition no_token (name : string) : external node := Returned PyNone.

Definition sample_image_exists (docker_image : DockerImage) (token : node) : external node :=
  Returned (PyBool true).

Definition sample_docker_image_exists (name : string) : external node :=
  Returned (PyBool true).

Definition sample_image_tag (docker_image : DockerImage) (token : node) : external node :=
  Returned (PyDict [("severity_fix_available", PyStr "NO_CVES_FOUND")]).

Definition sample_image_name (docker_image : DockerImage) : string :=
  match registry docker_image with
  | Some name => name
  | None => "None"
  end ++ "/" ++ team docker_image ++ "/" ++ artifact docker_image ++ ":" ++ tag docker_image.

Definition sample_parse (source : node) : external DockerImage :=
  match source with
  | PyStr _ => Returned sample_image
  | _ => Raised "ValueError"
  end.

Definition sample_component_auto_scaling_group (definition configuration : node)
    (args : string) (info : node) (force : bool) (account_info : unit)
    : external (node * node) :=
  Returned (definition, configuration).

(** It makes the dictionaries that are missing on the path. *)
Fixpoint sample_ensure (container : node) (keys : list string) : node :=
  match keys, container with
  | key :: keys', PyDict entries =>
      let inner := match dict_get key entries with
                   | Some value => value
                   | None => PyDict []
                   end in
      PyDict (PyJson.dict_set key (sample_ensure inner keys') entries)
  | _, _ => container
  end.

Definition sample_ensure_keys (container : node) (keys : list string) : external node :=
  Returned (sample_ensure container keys).

Definition sample_configuration : node :=
  PyDict [("Name", PyStr "AppServer");
          ("TaupageConfig",
           PyDict [("runtime", PyStr "Docker");
                   ("source", PyStr "pierone.example.org/team/app:1.0");
                   ("vpc", core_vpc)])].

Definition sample_info : node :=
  PyDict [("StackName", PyStr "my-app"); ("StackVersion", PyStr "1")].

(** The component with the sample answers, without and with [force]. *)
Definition sample_component (configuration : node) (force : bool) : io (node * node) :=
  component_taupage_auto_scaling_group sample_token sample_image_exists
    sample_docker_image_exists sample_image_tag sample_image_name sample_parse
    string unit (fun region => region) sample_component_auto_scaling_group
    sample_ensure_keys resolve_vpc (PyDict []) configuration "eu-west-1" sample_info
    force tt.

(** What the sample run returns. *)
Definition sample_returned : node * node :=
  Eval vm_compute in
    match result_of (sample_component sample_configuration false) with
    | Done returned => returned
    | Failed _ => (PyNone, PyNone)
    end.

Definition java_configuration : node :=
  PyDict [("Name", PyStr "AppServer");
          ("TaupageConfig",
           PyDict [("runtime", PyStr "Java"); ("source", PyStr "team/app:1.0");
                   ("vpc", core_vpc)])].

(** * Proofs *)

(** * Facts about the monad *)

Lemma bind_ret_l {A B : Type} (a : A) (f : A -> M B) : bind (ret a) f = f a.
Proof. unfold bind, ret. destruct (f a). reflexivity. Qed.

Lemma outcome_bind_ret {A B : Type} (m : M A) (g : A -> B) (b : B) :
  outcome (bind m (fun a => ret (g a))) = Ok b ->
  exists a, outcome m = Ok a /\ b = g a.
Proof.
  destruct m as [c [a|e]]; cbn; intros H; [|discriminate].
  inversion H. eauto.
Qed.

Lemma calls_bind_ret {A B : Type} (m : M A) (g : A -> B) :
  calls_of (bind m (fun a => ret (g a))) = calls_of m.
Proof.
  destruct m as [c [a|e]]; cbn; [apply List.app_nil_r|reflexivity].
Qed.

(** * Facts about [transform] *)

Section TransformFacts.

Variable resolver : node -> string -> result node.
Variable region : string.

Lemma transform_dict (entries : list (string * node)) :
  transform resolver region (PyDict entries) =
  if is_lookup entries then call_resolver resolver region (PyDict entries)
  else if is_deferred entries then ret (PyStr (placeholder (PyDict entries)))
  else entries' <- transform_items resolver region entries ;; ret (PyDict entries').
Proof.
  unfold is_lookup. cbn [transform].
  destruct (contains "Stack" entries && contains "Output" entries); [reflexivity|].
  destruct entries as [|[key value] l]; [reflexivity|].
  cbn [List.length Nat.ltb Nat.leb].
  destruct l as [|kv l]; cbn [is_deferred List.length Nat.eqb andb].
  - destruct (is_aws_fn key); reflexivity.
  - reflexivity.
Qed.

Lemma transform_list (items : list node) :
  transform resolver region (PyList items) =
  items' <- transform_each resolver region items ;; ret (PyList items').
Proof. reflexivity. Qed.

Lemma fails_through_ret {A : Type} (a : A) : fails_through resolver region (ret a).
Proof. intros nd e []. Qed.

Lemma fails_through_bind {A B : Type} (m : M A) (f : A -> M B) :
  fails_through resolver region m ->
  (forall a, fails_through resolver region (f a)) ->
  fails_through resolver region (bind m f).
Proof.
  intros Hm Hf nd e Hin Hr. destruct m as [c [a|e0]].
  - specialize (Hf a). unfold fails_through in *. cbn in *.
    destruct (f a) as [c' r'] eqn:E. cbn in *.
    apply in_app_or in Hin as [Hin|Hin].
    + specialize (Hm _ _ Hin Hr). discriminate.
    + eauto.
  - unfold fails_through in *. cbn in *.
    specialize (Hm _ _ Hin Hr). inversion Hm. reflexivity.
Qed.

Lemma fails_through_call (nd : node) :
  fails_through resolver region (call_resolver resolver region nd).
Proof.
  intros n e [<-|[]] Hr. exact Hr.
Qed.

Lemma fails_through_transform (nd : node) :
  fails_through resolver region (transform resolver region nd).
Proof.
  induction nd as [| | | |items IH|entries IH] using node_ind; try apply fails_through_ret.
  - rewrite transform_list. apply fails_through_bind; [|intros; apply fails_through_ret].
    induction IH as [|x l Hx _ IHl]; cbn [transform_each].
    + apply fails_through_ret.
    + apply fails_through_bind; [exact Hx|intros].
      apply fails_through_bind; [exact IHl|intros; apply fails_through_ret].
  - rewrite transform_dict. destruct (is_lookup entries); [apply fails_through_call|].
    destruct (is_deferred _); [apply fails_through_ret|].
    apply fails_through_bind; [|intros; apply fails_through_ret].
    induction IH as [|[k v] l' Hx _ IHl]; cbn [transform_items].
    + apply fails_through_ret.
    + apply fails_through_bind; [exact Hx|intros].
      apply fails_through_bind; [exact IHl|intros; apply fails_through_ret].
Qed.

(** What the two comprehensions return. *)
Lemma transform_items_ok (l l' : list (string * node)) :
  outcome (transform_items resolver region l) = Ok l' ->
  Forall2 (fun kv kv' => fst kv' = fst kv
                         /\ outcome (transform resolver region (snd kv)) = Ok (snd kv')) l l'.
Proof.
  revert l'. induction l as [|[k v] l IH]; intros l' H; cbn in H.
  - inversion H. constructor.
  - destruct (transform resolver region v) as [c [a|e]] eqn:Ev; cbn in H; [|discriminate].
    destruct (transform_items resolver region l) as [c' [b|e]] eqn:El; cbn in H; [|discriminate].
    inversion H; subst. constructor; [cbn; rewrite Ev; auto|apply IH; reflexivity].
Qed.

Lemma transform_each_ok (l l' : list node) :
  outcome (transform_each resolver region l) = Ok l' ->
  Forall2 (fun x x' => outcome (transform resolver region x) = Ok x') l l'.
Proof.
  revert l'. induction l as [|x l IH]; intros l' H; cbn in H.
  - inversion H. constructor.
  - destruct (transform resolver region x) as [c [a|e]] eqn:Ev; cbn in H; [|discriminate].
    destruct (transform_each resolver region l) as [c' [b|e]] eqn:El; cbn in H; [|discriminate].
    inversion H; subst. constructor; [rewrite Ev; auto|apply IH; reflexivity].
Qed.

Lemma contains_keys (key : string) (l l' : list (string * node)) :
  map fst l' = map fst l -> contains key l' = contains key l.
Proof.
  unfold contains. revert l'.
  induction l as [|kv l IH]; intros [|kv' l'] H; try discriminate; auto.
  cbn in *. inversion H. f_equal. auto.
Qed.

Lemma Forall2_keys (R : node -> node -> Prop) (l l' : list (string * node)) :
  Forall2 (fun kv kv' => fst kv' = fst kv /\ R (snd kv) (snd kv')) l l' ->
  map fst l' = map fst l.
Proof.
  induction 1 as [|kv kv' l l' [Hk _] _ IH]; cbn; congruence.
Qed.

(** Every call made for a tree has an argument no larger than the tree. *)
Lemma calls_size (nd c : node) :
  In c (calls_of (transform resolver region nd)) -> node_size c <= node_size nd.
Proof.
  revert c.
  induction nd as [| | | |items IH|entries IH] using node_ind; intros c; try (intros []).
  - rewrite transform_list, calls_bind_ret. cbn [node_size].
    induction IH as [|x l Hx _ IHl]; cbn [transform_each]; [intros []|].
    destruct (transform resolver region x) as [cx [a|e]] eqn:Ex; cbn in *.
    + destruct (transform_each resolver region l) as [cl [b|e]] eqn:El; cbn in *;
        rewrite ?List.app_nil_r; intros H; apply in_app_or in H as [H|H];
        try (apply Hx in H; lia); try (apply IHl in H; lia).
    + intros H. apply Hx in H. lia.
  - rewrite transform_dict. destruct (is_lookup entries).
    + intros [<-|[]]. lia.
    + destruct (is_deferred entries); [intros []|].
      rewrite calls_bind_ret. cbn [node_size].
      induction IH as [|[k v] l Hx _ IHl]; cbn [transform_items]; [intros []|].
      cbn [snd] in *.
      destruct (transform resolver region v) as [cx [a|e]] eqn:Ex; cbn in *.
      * destruct (transform_items resolver region l) as [cl [b|e]] eqn:El; cbn in *;
          rewrite ?List.app_nil_r; intros H; apply in_app_or in H as [H|H];
          try (apply Hx in H; lia); try (apply IHl in H; lia).
      * intros H. apply Hx in H. lia.
Qed.

Lemma calls_items_size (entries : list (string * node)) (c : node) :
  In c (calls_of (transform_items resolver region entries)) ->
  node_size c < node_size (PyDict entries).
Proof.
  cbn [node_size]. induction entries as [|[k v] l IH]; cbn [transform_items]; [intros []|].
  pose proof (calls_size v c) as Hv.
  destruct (transform resolver region v) as [cx [a|e]] eqn:Ex; cbn in *.
  - destruct (transform_items resolver region l) as [cl [b|e]] eqn:El; cbn in *;
      rewrite ?List.app_nil_r; intros H; apply in_app_or in H as [H|H];
      try (apply Hv in H; lia); try (apply IH in H; lia).
  - intros H. apply Hv in H. lia.
Qed.

(** An expression-free tree is left as it is, and no call is made. *)
Lemma transform_expression_free (nd : node) :
  expression_free nd = true -> transform resolver region nd = ret nd.
Proof.
  induction nd as [| | | |items IH|entries IH] using node_ind; intros H; try reflexivity.
  - rewrite transform_list. cbn [expression_free] in H.
    assert (E : transform_each resolver region items = ret items).
    { induction IH as [|x l Hx _ IHl]; [reflexivity|]. cbn in H.
      apply andb_true_iff in H as [H1 H2]. cbn [transform_each].
      rewrite (Hx H1), bind_ret_l, (IHl H2), bind_ret_l. reflexivity. }
    rewrite E, bind_ret_l. reflexivity.
  - rewrite transform_dict. cbn [expression_free] in H.
    apply andb_true_iff in H as [H H3]. apply andb_true_iff in H as [H1 H2].
    apply negb_true_iff in H1, H2. rewrite H1, H2.
    assert (E : transform_items resolver region entries = ret entries).
    { clear H1 H2. induction IH as [|[k v] l Hx _ IHl]; [reflexivity|]. cbn in H3.
      apply andb_true_iff in H3 as [H1 H2]. cbn [transform_items]. cbn [snd] in Hx.
      rewrite (Hx H1), bind_ret_l, (IHl H2), bind_ret_l. reflexivity. }
    rewrite E, bind_ret_l. reflexivity.
Qed.

End TransformFacts.

Section WalkFacts.

Variable resolver : node -> string -> result node.
Variable region : string.

Lemma walk_log_ret {A : Type} (a : A) : walk_log resolver region [] (ret a).
Proof. cbn. auto. Qed.

Lemma walk_log_call (nd : node) :
  walk_log resolver region [nd] (call_resolver resolver region nd).
Proof.
  unfold walk_log, call_resolver. cbn.
  destruct (resolver nd region) as [v|e] eqn:E.
  - split; [reflexivity|]. constructor; [eauto|constructor].
  - exists [], nd, []. auto.
Qed.

Lemma walk_log_bind {A B : Type} (m : M A) (f : A -> M B) (v1 v2 : list node) :
  walk_log resolver region v1 m ->
  (forall a, walk_log resolver region v2 (f a)) ->
  walk_log resolver region (v1 ++ v2) (bind m f).
Proof.
  intros Hm Hf. destruct m as [c [a|e]]; unfold walk_log in *; cbn in Hm.
  - destruct Hm as [-> Hall]. specialize (Hf a). cbn.
    destruct (f a) as [c' [b|e]]; cbn in *.
    + destruct Hf as [-> Hall']. split; [reflexivity|]. apply Forall_app. auto.
    + destruct Hf as (before & failed & after & -> & -> & Hb & Hr).
      exists (v1 ++ before)%list, failed, after.
      rewrite <- !List.app_assoc. repeat split; auto. apply Forall_app. auto.
  - destruct Hm as (before & failed & after & -> & -> & Hb & Hr). cbn.
    exists before, failed, (after ++ v2)%list.
    rewrite <- List.app_assoc. auto.
Qed.

(** The log of [transform] is the log of its walk. *)
Lemma walk_log_transform (nd : node) :
  walk_log resolver region (lookups_visited nd) (transform resolver region nd).
Proof.
  induction nd as [| | | |items IH|entries IH] using node_ind; try apply walk_log_ret.
  - rewrite transform_list. cbn [lookups_visited].
    rewrite <- (List.app_nil_r (flat_map lookups_visited items)).
    apply walk_log_bind; [|intros; apply walk_log_ret].
    induction IH as [|x l Hx _ IHl]; cbn [transform_each flat_map].
    + apply walk_log_ret.
    + apply walk_log_bind; [exact Hx|intros].
      rewrite <- (List.app_nil_r (flat_map lookups_visited l)).
      apply walk_log_bind; [exact IHl|intros; apply walk_log_ret].
  - rewrite transform_dict. cbn [lookups_visited].
    destruct (is_lookup entries); [apply walk_log_call|].
    destruct (is_deferred entries); [apply walk_log_ret|].
    rewrite <- (List.app_nil_r (flat_map _ entries)).
    apply walk_log_bind; [|intros; apply walk_log_ret].
    induction IH as [|[k v] l Hx _ IHl]; cbn [transform_items flat_map].
    + apply walk_log_ret.
    + apply walk_log_bind; [exact Hx|intros].
      rewrite <- (List.app_nil_r (flat_map _ l)).
      apply walk_log_bind; [exact IHl|intros; apply walk_log_ret].
Qed.

(** Whatever is handed to the resolver is a lookup that the walk meets. *)
Lemma calls_are_visited (nd c : node) :
  In c (calls_of (transform resolver region nd)) -> In c (lookups_visited nd).
Proof.
  pose proof (walk_log_transform nd) as H. unfold walk_log in H.
  destruct (outcome (transform resolver region nd)).
  - destruct H as [-> _]. auto.
  - destruct H as (before & failed & after & -> & -> & _). intros Hin.
    apply in_app_or in Hin as [Hin|[<-|[]]]; apply in_or_app; cbn; auto.
Qed.

(** Whatever the walk meets has both keys [Stack] and [Output]. *)
Lemma visited_are_lookups (nd c : node) :
  In c (lookups_visited nd) -> exists entries, c = PyDict entries /\ is_lookup entries = true.
Proof.
  induction nd as [| | | |items IH|entries IH] using node_ind; cbn [lookups_visited];
    try (intros []).
  - intros H. apply in_flat_map in H as (x & Hx & Hc).
    rewrite Forall_forall in IH. eauto.
  - destruct (is_lookup entries) eqn:E.
    + intros [<-|[]]. eauto.
    + destruct (is_deferred entries); [intros []|].
      intros H. apply in_flat_map in H as (x & Hx & Hc).
      rewrite Forall_forall in IH. eauto.
Qed.

End WalkFacts.


Lemma is_lookup_single (key : string) (value : node) : is_lookup [(key, value)] = false.
Proof.
  unfold is_lookup, contains. cbn [existsb fst]. rewrite !orb_false_r.
  destruct (String.eqb_spec "Stack" key) as [<-|]; reflexivity.
Qed.

(** An AWS function becomes one placeholder; nothing is called and its
    value is not visited. *)
Lemma transform_deferred
    (resolver : node -> string -> result node) (region : string)
    (key : string) (value : node) :
  is_aws_fn key = true ->
  transform resolver region (PyDict [(key, value)])
  = ret (PyStr (placeholder (PyDict [(key, value)]))).
Proof.
  intros H. rewrite transform_dict, is_lookup_single. cbn [is_deferred]. rewrite H. reflexivity.
Qed.

(** The list comprehension keeps every element in its place. *)
Lemma transform_list_order
    (resolver : node -> string -> result node) (region : string)
    (items : list node) (t : node) :
  outcome (transform resolver region (PyList items)) = Ok t ->
  exists items',
    t = PyList items'
    /\ Forall2 (fun x x' => outcome (transform resolver region x) = Ok x') items items'.
Proof.
  rewrite transform_list. intros H. apply outcome_bind_ret in H as (items' & H & ->).
  exists items'. split; [reflexivity|]. apply transform_each_ok, H.
Qed.

Lemma spec_lookup_is_lookup (nd : node) :
  spec_ResourceLookupNode nd = true ->
  exists entries, nd = PyDict entries /\ is_lookup entries = true.
Proof.
  destruct nd as [| | | | |entries]; try discriminate.
  destruct entries as [|[k1 [| | |s1| |]] [|[k2 [| | |s2| |]] [|]]]; try discriminate.
  cbn [spec_ResourceLookupNode]. intros H. eexists; split; [reflexivity|].
  apply orb_true_iff in H as [H|H]; apply andb_true_iff in H as [H1 H2];
    apply String.eqb_eq in H1, H2; subst; reflexivity.
Qed.

Lemma spec_has_lookup_has_lookup (nd : node) :
  has_lookup nd = false -> spec_has_lookup nd = false.
Proof.
  induction nd as [| | | |items IH|entries IH] using node_ind; intros H; try reflexivity.
  - cbn in *. induction IH as [|x l Hx _ IHl]; [reflexivity|].
    cbn in *. apply orb_false_iff in H as [H1 H2]. rewrite (Hx H1). cbn. auto.
  - cbn [has_lookup] in H. apply orb_false_iff in H as [H1 H2].
    cbn [spec_has_lookup]. apply orb_false_iff. split.
    + destruct (spec_ResourceLookupNode (PyDict entries)) eqn:E; [|reflexivity].
      apply spec_lookup_is_lookup in E as (es & Hes & Hl). inversion Hes; subst. congruence.
    + clear H1. induction IH as [|[k v] l Hx _ IHl]; [reflexivity|].
      cbn in *. apply orb_false_iff in H2 as [H1 H2]. rewrite (Hx H1). cbn. auto.
Qed.

(** * [json.loads] undoes [json.dumps] *)

Section JsonFacts.
Import PyJson.

Lemma append_assoc (a b c : string) : (a ++ b) ++ c = a ++ (b ++ c).
Proof. induction a as [|x a IH]; cbn; [reflexivity|]. rewrite IH. reflexivity. Qed.

Lemma append_nil_r (a : string) : a ++ "" = a.
Proof. induction a as [|x a IH]; cbn; [reflexivity|]. rewrite IH. reflexivity. Qed.

Lemma length_append (a b : string) :
  String.length (a ++ b) = String.length a + String.length b.
Proof. induction a as [|c a IH]; cbn; [reflexivity|]. rewrite IH. reflexivity. Qed.

(** One escaped character is read back as the character. *)
Lemma scanstring_escape_char (c : ascii) (s : string) :
  scanstring (escape_char c ++ s) = push c (scanstring s).
Proof.
  destruct c as [[] [] [] [] [] [] [] []]; reflexivity.
Qed.

Lemma scanstring_escape (s rest : string) :
  scanstring (escape s ++ String DQ rest) = Ok (s, rest).
Proof.
  induction s as [|c s IH]; [reflexivity|].
  cbn [escape]. rewrite append_assoc, scanstring_escape_char, IH. reflexivity.
Qed.

Lemma delimited_not_digit (rest : string) :
  delimited rest = true -> starts_with_digit rest = false /\ float_tail rest = false.
Proof.
  destruct rest as [|c rest]; [auto|]. cbn [delimited]. intros H.
  apply orb_true_iff in H as [H|H]; [apply orb_true_iff in H as [H|H]|];
    apply Ascii.eqb_eq in H; subst; auto.
Qed.

Lemma span_digits_uint (d : Decimal.uint) (rest : string) :
  starts_with_digit rest = false ->
  span_digits (NilEmpty.string_of_uint d ++ rest) = (NilEmpty.string_of_uint d, rest).
Proof.
  intros Hr. induction d as [|d IH|d IH|d IH|d IH|d IH|d IH|d IH|d IH|d IH|d IH];
    cbn [NilEmpty.string_of_uint append span_digits]; try (cbn; rewrite IH; reflexivity).
  destruct rest as [|c rest]; [reflexivity|]. cbn in *. rewrite Hr. reflexivity.
Qed.

Lemma nzhead_head (d : Decimal.uint) :
  Decimal.nzhead d = Decimal.Nil \/ nonzero_head (Decimal.nzhead d).
Proof.
  induction d; cbn; auto.
Qed.

Lemma to_uint_head (p : positive) : nonzero_head (Pos.to_uint p).
Proof.
  assert (E : Decimal.unorm (Pos.to_uint p) = Pos.to_uint p).
  { rewrite <- DecimalPos.Unsigned.to_of, DecimalPos.Unsigned.of_to. reflexivity. }
  pose proof (DecimalPos.Unsigned.to_uint_nonzero p) as Hz.
  rewrite <- E in *. unfold Decimal.unorm in *.
  destruct (nzhead_head (Pos.to_uint p)) as [H|H].
  - rewrite H in Hz. elim Hz. reflexivity.
  - destruct (Decimal.nzhead (Pos.to_uint p)); cbn in *; tauto.
Qed.

Lemma of_uint_to_uint (p : positive) : Z.of_uint (Pos.to_uint p) = Z.pos p.
Proof. exact (DecimalZ.of_to (Z.pos p)). Qed.

Lemma int_of_digits_uint (neg : bool) (d : Decimal.uint) :
  nonzero_head d ->
  int_of_digits neg (NilEmpty.string_of_uint d)
  = if neg then Z.opp (Z.of_uint d) else Z.of_uint d.
Proof.
  intros Hd. unfold int_of_digits.
  assert (E : NilZero.int_of_string (NilEmpty.string_of_uint d) = Some (Decimal.Pos d)).
  { assert (E1 : NilEmpty.string_of_uint d = NilZero.string_of_int (Decimal.Pos d))
      by (destruct d; cbn in *; tauto || reflexivity).
    rewrite E1. apply NilZero.isi; intros H; inversion H; subst; exact Hd. }
  rewrite E. reflexivity.
Qed.

Lemma scan_number_uint (neg : bool) (d : Decimal.uint) (rest : string) :
  nonzero_head d -> delimited rest = true ->
  scan_number ((if neg then "-" else "") ++ NilEmpty.string_of_uint d ++ rest)
  = Ok (PyInt (if neg then Z.opp (Z.of_uint d) else Z.of_uint d), rest).
Proof.
  intros Hd Hr. apply delimited_not_digit in Hr as [Hr1 Hr2].
  pose proof (span_digits_uint d rest Hr1) as Hs.
  pose proof (int_of_digits_uint neg d Hd) as Hi.
  unfold scan_number.
  destruct d; cbn in Hd; try tauto;
    destruct neg; cbn [append NilEmpty.string_of_uint] in *;
    cbn [Ascii.eqb Bool.eqb is_digit code nat_of_ascii andb]; 
    rewrite Hs, Hr2, Hi; reflexivity.
Qed.

Lemma scan_number_int (z : Z) (rest : string) :
  delimited rest = true ->
  scan_number (str_of_int z ++ rest) = Ok (PyInt z, rest).
Proof.
  intros Hr. destruct z as [|p|p].
  - apply delimited_not_digit in Hr as [_ Hr]. cbn. rewrite Hr. reflexivity.
  - pose proof (scan_number_uint false (Pos.to_uint p) rest (to_uint_head p) Hr) as H.
    rewrite of_uint_to_uint in H. cbn [append] in H. rewrite <- H.
    unfold str_of_int. cbn [Z.to_int NilZero.string_of_int].
    pose proof (to_uint_head p). destruct (Pos.to_uint p); cbn in *; tauto || reflexivity.
  - pose proof (scan_number_uint true (Pos.to_uint p) rest (to_uint_head p) Hr) as H.
    rewrite of_uint_to_uint in H. cbn [append Z.opp] in H. rewrite <- H.
    unfold str_of_int. cbn [Z.to_int NilZero.string_of_int].
    pose proof (to_uint_head p). destruct (Pos.to_uint p); cbn in *; tauto || reflexivity.
Qed.

Lemma dumps_list (items : list node) :
  dumps (PyList items) = "[" ++ dump_elements items ++ "]".
Proof.
  reflexivity.
Qed.

Lemma dumps_dict (entries : list (string * node)) :
  dumps (PyDict entries) = "{" ++ dump_members entries ++ "}".
Proof.
  reflexivity.
Qed.

Lemma elements_cons (x : node) (l : list node) :
  dump_elements (x :: l)
  = dumps x ++ match l with
               | [] => ""
               | _ => ", " ++ dump_elements l
               end.
Proof. destruct l; [symmetry; apply append_nil_r|reflexivity]. Qed.

Lemma members_cons (k : string) (v : node) (l : list (string * node)) :
  dump_members ((k, v) :: l)
  = encode_str k ++ ": " ++ dumps v ++
    match l with
    | [] => ""
    | _ => ", " ++ dump_members l
    end.
Proof. destruct l; [rewrite append_nil_r; reflexivity|reflexivity]. Qed.

Lemma str_of_int_head (z : Z) :
  exists c s, str_of_int z = String c s /\ (c = "-"%char \/ is_digit c = true).
Proof.
  destruct z as [|p|p]; unfold str_of_int; cbn [Z.to_int NilZero.string_of_int].
  - exists "0"%char, "". auto.
  - pose proof (to_uint_head p). destruct (Pos.to_uint p); cbn in *; try tauto; eauto.
  - eauto.
Qed.

Lemma value_start_dumps (nd : node) (rest : string) : value_start (dumps nd ++ rest) = true.
Proof.
  destruct nd as [|[]|z|s|items|entries]; try reflexivity.
  cbn [dumps]. destruct (str_of_int_head z) as (c & s & -> & [->|Hc]); [reflexivity|].
  cbn [append value_start].
  destruct c as [[] [] [] [] [] [] [] []]; try discriminate Hc; reflexivity.
Qed.

Lemma skip_ws_value (s : string) : value_start s = true -> skip_ws s = s.
Proof.
  destruct s as [|c s]; [discriminate|]. cbn. destruct (is_ws c); [discriminate|reflexivity].
Qed.

Lemma eat_value (c : ascii) (s : string) :
  value_start s = true -> member c "]},:" = true -> eat c s = None.
Proof.
  destruct s as [|d s]; [reflexivity|]. cbn [value_start eat member]. intros H Hc.
  destruct (Ascii.eqb_spec c d) as [->|]; [|reflexivity].
  destruct (Ascii.eqb d "]"), (Ascii.eqb d "}"), (Ascii.eqb d ","), (Ascii.eqb d ":");
    cbn in *; try discriminate; rewrite ?andb_false_r in H; discriminate.
Qed.

(** A number is scanned by [scan_number]. *)
Lemma scan_once_number (fuel : nat) (c : ascii) (s : string) :
  c = "-"%char \/ is_digit c = true ->
  scan_once (S fuel) (String c s) = scan_number (String c s).
Proof.
  intros [->|Hc]; [reflexivity|].
  destruct c as [[] [] [] [] [] [] [] []]; try discriminate Hc; reflexivity.
Qed.

Lemma dict_set_fresh (k : string) (v : node) (d : list (string * node)) :
  existsb (String.eqb k) (map fst d) = false -> dict_set k v d = (d ++ [(k, v)])%list.
Proof.
  induction d as [|[k' v'] d IH]; cbn; [reflexivity|]. intros H.
  apply orb_false_iff in H as [H1 H2]. rewrite H1, (IH H2). reflexivity.
Qed.

Lemma dict_of_pairs_distinct (acc l : list (string * node)) :
  distinct (map fst (acc ++ l)%list) = true ->
  fold_left (fun d kv => dict_set (fst kv) (snd kv) d) l acc = (acc ++ l)%list.
Proof.
  revert acc. induction l as [|[k v] l IH]; intros acc H; cbn [fold_left fst snd].
  - symmetry. apply List.app_nil_r.
  - assert (E : (acc ++ (k, v) :: l = (acc ++ [(k, v)]) ++ l)%list)
      by (rewrite <- app_assoc; reflexivity).
    rewrite dict_set_fresh.
    + rewrite IH; [symmetry; exact E|]. rewrite <- E. exact H.
    + clear IH E. induction acc as [|[k' v'] acc IHa]; [reflexivity|].
      cbn in H |- *. apply andb_true_iff in H as [H1 H2].
      rewrite (IHa H2), orb_false_r. apply negb_true_iff in H1.
      rewrite map_app, existsb_app in H1. apply orb_false_iff in H1 as [_ H1].
      cbn in H1. apply orb_false_iff in H1 as [H1 _].
      rewrite String.eqb_sym. exact H1.
Qed.

Lemma node_size_pos (nd : node) : 1 <= node_size nd.
Proof. destruct nd; cbn; lia. Qed.

Lemma JSONArray_elements (items : list node) :
  Forall reads_back items -> items <> [] ->
  forall fuel rest,
    1 + 2 * fold_right (fun x n => node_size x + n) 0 items <= fuel ->
    JSONArray fuel
      (dump_elements items ++ String "]" rest)
    = Ok (items, rest).
Proof.
  induction 1 as [|x l Hx Hl IH]; [congruence|]. intros _ fuel rest Hf.
  cbn [fold_right] in Hf. pose proof (node_size_pos x) as Hpos.
  destruct fuel as [|fuel]; [lia|].
  rewrite elements_cons, append_assoc. cbn [JSONArray].
  destruct l as [|y l'].
  - cbn [append]. rewrite Hx by (reflexivity || lia). reflexivity.
  - rewrite Hx by (reflexivity || lia).
    cbn -[dump_elements JSONArray].
    rewrite skip_ws_value by (rewrite elements_cons, !append_assoc; apply value_start_dumps).
    rewrite IH; [reflexivity|congruence|].
    cbn [fold_right] in *. lia.
Qed.

Lemma JSONObject_members (entries : list (string * node)) :
  Forall (fun kv => reads_back (snd kv)) entries -> entries <> [] ->
  forall fuel rest,
    1 + 2 * fold_right (fun kv n => node_size (snd kv) + n) 0 entries <= fuel ->
    JSONObject fuel
      (dump_members entries ++ String "}" rest)
    = Ok (entries, rest).
Proof.
  induction 1 as [|[k v] l Hx Hl IH]; [congruence|]. intros _ fuel rest Hf.
  cbn [fold_right snd] in Hf, Hx. pose proof (node_size_pos v) as Hpos.
  destruct fuel as [|fuel]; [lia|].
  rewrite members_cons, !append_assoc. cbn [JSONObject].
  unfold encode_str at 1, dq at 1, chr at 1. cbn [append eat Ascii.eqb Bool.eqb DQ].
  rewrite append_assoc. unfold dq, chr. cbn [append]. rewrite scanstring_escape.
  cbn -[dump_members JSONObject scan_once dumps].
  rewrite skip_ws_value by apply value_start_dumps.
  destruct l as [|[k' v'] l'].
  - cbn [append]. rewrite Hx by (reflexivity || lia). reflexivity.
  - rewrite Hx by (reflexivity || lia).
    cbn -[dump_members JSONObject scan_once dumps encode_str].
    assert (Hs : forall t, value_start (encode_str k' ++ t) = true) by reflexivity.
    rewrite skip_ws_value by (rewrite members_cons, !append_assoc; apply Hs).
    rewrite IH; [reflexivity|congruence|].
    cbn [fold_right snd] in *. lia.
Qed.

Lemma forallb_Forall {A : Type} (f : A -> bool) (P : A -> Prop) (l : list A) :
  Forall (fun x => f x = true -> P x) l -> forallb f l = true -> Forall P l.
Proof.
  induction 1 as [|x l Hx _ IH]; cbn; [constructor|]. intros H.
  apply andb_true_iff in H as [H1 H2]. constructor; auto.
Qed.

(** A value that was dumped is scanned back, whatever follows it in the
    document. *)
Lemma scan_once_dumps (nd : node) : well_formed nd = true -> reads_back nd.
Proof.
  induction nd as [|b|z|s|items IH|entries IH] using node_ind; intros Hwf fuel rest Hf Hr;
    cbn [node_size] in Hf; (destruct fuel as [|fuel]; [lia|]).
  - destruct rest; reflexivity.
  - destruct b, rest; reflexivity.
  - cbn [dumps]. destruct (str_of_int_head z) as (c & s & E & Hc).
    pose proof (scan_number_int z rest Hr) as Hn. rewrite E in *. cbn [append] in *.
    rewrite scan_once_number by exact Hc. exact Hn.
  - cbn [dumps]. unfold encode_str, dq, chr. cbn [append scan_once Ascii.eqb Bool.eqb DQ].
    rewrite append_assoc. cbn [append]. rewrite scanstring_escape. reflexivity.
  - cbn [well_formed] in Hwf. pose proof (forallb_Forall _ _ _ IH Hwf) as Hall.
    rewrite dumps_list, !append_assoc. cbn [append scan_once Ascii.eqb Bool.eqb DQ].
    destruct items as [|x l]; [reflexivity|].
    rewrite skip_ws_value by (rewrite elements_cons, !append_assoc; apply value_start_dumps).
    rewrite eat_value by
      (reflexivity || (rewrite elements_cons, !append_assoc; apply value_start_dumps)).
    rewrite JSONArray_elements; [reflexivity|exact Hall|congruence|lia].
  - cbn [well_formed] in Hwf. apply andb_true_iff in Hwf as [Hd Hwf].
    pose proof (forallb_Forall (fun kv => well_formed (snd kv)) _ _ IH Hwf) as Hall.
    rewrite dumps_dict, !append_assoc. cbn [append scan_once Ascii.eqb Bool.eqb DQ].
    destruct entries as [|[k v] l]; [reflexivity|].
    assert (Hs : forall t, value_start (encode_str k ++ t) = true) by reflexivity.
    rewrite skip_ws_value by (rewrite members_cons, !append_assoc; apply Hs).
    rewrite eat_value by (reflexivity || (rewrite members_cons, !append_assoc; apply Hs)).
    rewrite JSONObject_members; [|exact Hall|congruence|lia].
    unfold dict_of_pairs. rewrite (dict_of_pairs_distinct [] _ Hd). reflexivity.
Qed.

Lemma encode_str_length (s : string) : 2 <= String.length (encode_str s).
Proof.
  unfold encode_str. rewrite !length_append. cbn. lia.
Qed.

Lemma dumps_length (nd : node) : 2 * node_size nd <= 2 + String.length (dumps nd).
Proof.
  induction nd as [|b|z|s|items IH|entries IH] using node_ind;
    rewrite ?dumps_list, ?dumps_dict; cbn [node_size];
    try (cbn; lia).
  - rewrite !length_append. cbn [String.length].
    enough (H : 2 * fold_right (fun x n => node_size x + n) 0 items
                <= 2 + String.length (dump_elements items)) by lia.
    induction IH as [|x l Hx _ IHl]; [cbn; lia|].
    rewrite elements_cons, length_append. cbn [fold_right].
    destruct l as [|y l']; [cbn in *; lia|].
    rewrite length_append. cbn [String.length]. lia.
  - rewrite !length_append. cbn [String.length].
    enough (H : 2 * fold_right (fun kv n => node_size (snd kv) + n) 0 entries
                <= 2 + String.length (dump_members entries)) by lia.
    induction IH as [|[k v] l Hx _ IHl]; [cbn; lia|].
    rewrite members_cons, !length_append. cbn [fold_right snd] in *.
    pose proof (encode_str_length k).
    destruct l as [|y l']; [cbn in *; lia|].
    rewrite length_append. cbn [String.length]. lia.
Qed.

(** [json.loads(json.dumps(nd)) == nd]. *)
Lemma loads_dumps (nd : node) : well_formed nd = true -> loads (dumps nd) = Ok nd.
Proof.
  intros Hwf. unfold loads.
  rewrite skip_ws_value by (rewrite <- (append_nil_r (dumps nd)); apply value_start_dumps).
  pose proof (scan_once_dumps nd Hwf (2 + 2 * String.length (dumps nd)) "") as H.
  rewrite append_nil_r in H. rewrite H; [reflexivity| |reflexivity].
  pose proof (dumps_length nd). lia.
Qed.







End JsonFacts.

(** * A placeholder as [yaml.dump] writes it *)

Section YamlPlaceholder.
Import PyYaml.







End YamlPlaceholder.

(** * The order of the keys *)














(** * The pattern and its matches *)

Lemma prefix_split (p s : string) :
  prefix p s = true -> s = p ++ drop (String.length p) s.
Proof.
  revert s. induction p as [|c p IH]; intros s H; [reflexivity|].
  destruct s as [|d s]; [discriminate|]. cbn in H.
  destruct (ascii_dec c d) as [->|]; [|discriminate].
  cbn. f_equal. apply IH, H.
Qed.


Lemma drop_append (a b : string) : drop (String.length a) (a ++ b) = b.
Proof. induction a as [|c a IH]; [reflexivity|exact IH]. Qed.

Lemma drop_length (n : nat) (s : string) :
  String.length (drop n s) = String.length s - n.
Proof.
  revert s. induction n as [|n IH]; intros s; [cbn; lia|].
  destruct s as [|c s]; [reflexivity|]. cbn. apply IH.
Qed.

(** What [lazy_until_closing] returns is followed by the closing marker. *)
Lemma lazy_until_closing_sound (s g : string) :
  lazy_until_closing s = Some g -> exists rest, s = g ++ CLOSING ++ rest.
Proof.
  revert g. induction s as [|c s IH]; intros g H; cbn [lazy_until_closing] in H.
  - discriminate.
  - destruct (prefix CLOSING (String c s)) eqn:E.
    + inversion H; subst. apply prefix_split in E. eexists. exact E.
    + destruct (lazy_until_closing s) as [g'|]; [|discriminate].
      inversion H; subst. destruct (IH g' eq_refl) as [rest ->].
      exists rest. reflexivity.
Qed.

(** It is the shortest such text: the closing marker does not start
    inside it. *)
Lemma lazy_until_closing_first (s g : string) :
  lazy_until_closing s = Some g ->
  forall n, n < String.length g -> prefix CLOSING (drop n s) = false.
Proof.
  revert g. induction s as [|c s IH]; intros g H n Hn; cbn [lazy_until_closing] in H.
  - discriminate.
  - destruct (prefix CLOSING (String c s)) eqn:E.
    + inversion H; subst. cbn in Hn. lia.
    + destruct (lazy_until_closing s) as [g'|] eqn:Eg; [|discriminate].
      inversion H; subst. destruct n as [|n]; [exact E|].
      cbn [drop]. apply (IH g' eq_refl). cbn in Hn. lia.
Qed.



Lemma match_here_sound (s g : string) :
  match_here s = Some g -> exists rest, s = OPENING ++ g ++ CLOSING ++ rest.
Proof.
  unfold match_here. destruct (prefix OPENING s) eqn:E; [|discriminate]. intros H.
  apply prefix_split in E. apply lazy_until_closing_sound in H as [rest H].
  exists rest. rewrite E. cbn [String.length OPENING]. rewrite H. reflexivity.
Qed.

(** A match is found at or after the position the search starts from, is
    eight characters longer than its group 2, and lies within the text. *)
Lemma search_bounds (s : string) (pos : nat) (m : re_match) :
  search s pos = Some m ->
  pos <= m_start m
  /\ m_end m = m_start m + 4 + String.length (m_group2 m) + 4
  /\ m_end m <= pos + String.length s
  /\ match_here (drop (m_start m - pos) s) = Some (m_group2 m).
Proof.
  revert pos. induction s as [|c s IH]; intros pos H; cbn [search] in H.
  - destruct (match_here "") eqn:E; [|discriminate]. cbn in E. discriminate.
  - destruct (match_here (String c s)) as [g|] eqn:E.
    + inversion H; subst. cbn [m_start m_end m_group2].
      rewrite Nat.sub_diag. cbn [drop]. repeat split; try lia; [|exact E].
      apply match_here_sound in E as [rest E]. rewrite E.
      rewrite !length_append. cbn. lia.
    + apply IH in H as (H1 & H2 & H3 & H4). repeat split; try lia; [cbn; lia|].
      replace (m_start m - pos) with (S (m_start m - S pos)) by lia. exact H4.
Qed.

(** The search stops at the first position where the pattern matches. *)
Lemma search_leftmost (s : string) (pos : nat) (m : re_match) :
  search s pos = Some m ->
  forall n, n < m_start m - pos -> match_here (drop n s) = None.
Proof.
  revert pos. induction s as [|c s IH]; intros pos H n Hn; cbn [search] in H.
  - destruct (match_here "") eqn:E; discriminate.
  - destruct (match_here (String c s)) as [g|] eqn:E.
    + inversion H; subst. cbn in Hn. lia.
    + destruct n as [|n]; [exact E|]. cbn [drop].
      apply (IH (S pos) H). lia.
Qed.

Lemma search_skip (c : ascii) (s : string) (pos : nat) :
  c <> SQ -> search (String c s) pos = search s (S pos).
Proof.
  intros Hc. cbn [search]. unfold match_here, OPENING. cbn [prefix].
  destruct (ascii_dec "'" c) as [E|_]; [elim Hc; symmetry; exact E|reflexivity].
Qed.

Lemma finditer_from_S (fuel : nat) (text : string) (pos : nat) :
  finditer_from (S fuel) text pos =
  match search (drop pos text) pos with
  | None => []
  | Some m => m :: finditer_from fuel text (m_end m)
  end.
Proof. reflexivity. Qed.

(** The fuel of [finditer] is never used up. *)
Lemma finditer_from_fuel (text : string) (fuel fuel' pos : nat) :
  String.length text - pos < fuel -> String.length text - pos < fuel' ->
  finditer_from fuel text pos = finditer_from fuel' text pos.
Proof.
  revert fuel' pos. induction fuel as [|fuel IH]; intros fuel' pos H H'; [lia|].
  destruct fuel' as [|fuel']; [lia|]. cbn [finditer_from].
  destruct (search (drop pos text) pos) as [m|] eqn:E; [|reflexivity].
  apply search_bounds in E as (H1 & H2 & H3 & _). rewrite drop_length in H3.
  f_equal. apply IH; lia.
Qed.

Lemma finditer_unfold (text : string) :
  finditer text =
  match search text 0 with
  | None => []
  | Some m => m :: finditer_from (S (String.length text)) text (m_end m)
  end.
Proof.
  unfold finditer. rewrite finditer_from_S. cbn [drop].
  destruct (search text 0) as [m|] eqn:E; [|reflexivity].
  f_equal. pose proof (search_bounds _ _ _ E) as (H1 & H2 & H3 & _).
  apply finditer_from_fuel; cbn in H3; lia.
Qed.


Section PatternLanguage.
Import PyRe.

Lemma fullmatch_alt (r1 r2 : regex) (s : string) :
  fullmatch (Alt r1 r2) s = fullmatch r1 s || fullmatch r2 s.
Proof.
  revert r1 r2. induction s as [|c s IH]; intros r1 r2; [reflexivity|]. cbn. apply IH.
Qed.

Lemma fullmatch_cat_nullable (r1 r2 : regex) (s : string) :
  nullable r1 = true -> fullmatch r2 s = true -> fullmatch (Cat r1 r2) s = true.
Proof.
  intros Hn H. destruct s as [|c s]; cbn; rewrite Hn; [exact H|].
  rewrite fullmatch_alt. cbn in H. rewrite H. apply orb_true_r.
Qed.

Lemma fullmatch_cat (r1 r2 : regex) (a b : string) :
  fullmatch r1 a = true -> fullmatch r2 b = true -> fullmatch (Cat r1 r2) (a ++ b) = true.
Proof.
  revert r1. induction a as [|c a IH]; intros r1 H1 H2.
  - apply fullmatch_cat_nullable; assumption.
  - cbn in H1 |- *. destruct (nullable r1).
    + rewrite fullmatch_alt, (IH _ H1 H2). reflexivity.
    + apply IH; assumption.
Qed.

Lemma fullmatch_lit (s : string) : fullmatch (lit s) s = true.
Proof.
  induction s as [|c s IH]; [reflexivity|]. cbn. rewrite Ascii.eqb_refl. cbn.
  apply (fullmatch_cat_nullable Eps (lit s) s eq_refl IH).
Qed.

Lemma fullmatch_star_any (s : string) : fullmatch (Star (Sym (fun _ => true))) s = true.
Proof.
  induction s as [|c s IH]; [reflexivity|]. cbn.
  apply (fullmatch_cat_nullable Eps _ s eq_refl IH).
Qed.

(** What the scanner takes for a match is a word of the pattern. *)
Lemma match_here_in_language (s g : string) :
  match_here s = Some g -> fullmatch _AWS_FN_RE (OPENING ++ g ++ CLOSING) = true.
Proof.
  intros _. unfold _AWS_FN_RE. cbn [seq].
  apply fullmatch_cat; [apply fullmatch_lit|].
  apply fullmatch_cat; [apply fullmatch_star_any|].
  rewrite <- (append_nil_r CLOSING) at 2.
  apply fullmatch_cat; [apply fullmatch_lit|reflexivity].
Qed.

End PatternLanguage.

(** * Facts about [split] and the pipeline *)




Lemma split_loop_shape (text : string) (ms : list re_match) (last_pos : nat)
    (acc parts : list node) :
  split_loop text ms last_pos acc = Ok parts ->
  exists rest,
    parts = (acc ++ alternate (match ms with
                               | [] => drop last_pos text
                               | m :: _ => slice text last_pos (m_start m)
                               end) rest)%list
    /\ Forall2 (fun m el => PyJson.loads (m_group2 m) = Ok (fst el)) ms rest.
Proof.
  revert last_pos acc. induction ms as [|m ms IH]; intros last_pos acc H; cbn [split_loop] in H.
  - inversion H. exists []. split; [reflexivity|constructor].
  - destruct (PyJson.loads (m_group2 m)) as [v|e] eqn:Ev; [|discriminate].
    apply IH in H as (rest & -> & HF).
    eexists ((v, _) :: rest). split.
    + rewrite <- List.app_assoc. reflexivity.
    + constructor; [exact Ev|exact HF].
Qed.




Lemma generate_user_data_ok
    (resolver : node -> string -> result node) (region : string)
    (taupage_config out : node) :
  outcome (generate_user_data resolver taupage_config region) = Ok out ->
  exists transformed parts,
    outcome (transform resolver region taupage_config) = Ok transformed
    /\ split (HEADER ++ PyYaml.dump transformed) = Ok parts
    /\ out = collapse parts.
Proof.
  unfold generate_user_data, bind, lift, ret, outcome.
  destruct (transform resolver region taupage_config) as [c [t|e]]; cbn [snd];
    [|intros H; discriminate H].
  destruct (split (HEADER ++ PyYaml.dump t)) as [parts|e] eqn:Es; cbn [snd]; intros H;
    [|discriminate H].
  inversion H. exists t, parts. auto.
Qed.


(** * The claims *)

(** ** C1 *)




(** ** C2 *)

(** C2, as the code has it.  When the resolver returns values that hold no
    lookup, the tree that [transform] hands to the serializer holds no
    dictionary with both keys [Stack] and [Output], hence no
    ResourceLookupNode. *)
Theorem lookup_elimination
    (resolver : node -> string -> result node) (region : string)
    (taupage_config transformed : node) :
  (forall nd v, resolver nd region = Ok v -> has_lookup v = false) ->
  outcome (transform resolver region taupage_config) = Ok transformed ->
  has_lookup transformed = false /\ spec_has_lookup transformed = false.
Proof.
  intros Hr H. enough (has_lookup transformed = false) by (auto using spec_has_lookup_has_lookup).
  revert transformed H.
  induction taupage_config as [| | | |items IH|entries IH] using node_ind; intros t H;
    try (cbn in H; inversion H; reflexivity).
  - rewrite transform_list in H. apply outcome_bind_ret in H as (items' & H & ->).
    apply transform_each_ok in H. cbn [has_lookup].
    induction H as [|x x' l l' Hx _ IHl]; [reflexivity|].
    inversion IH; subst. cbn. rewrite (H1 _ Hx). cbn. auto.
  - rewrite transform_dict in H. destruct (is_lookup entries) eqn:E.
    + cbn in H. eauto.
    + destruct (is_deferred entries); [cbn in H; inversion H; reflexivity|].
      apply outcome_bind_ret in H as (entries' & H & ->).
      apply transform_items_ok in H. cbn [has_lookup].
      assert (Hk : is_lookup entries' = false).
      { unfold is_lookup in *.
        pose proof (Forall2_keys
                      (fun x x' => outcome (transform resolver region x) = Ok x')
                      _ _ H) as Hk.
        rewrite !(contains_keys _ _ _ Hk). exact E. }
      rewrite Hk. cbn [orb]. clear E Hk.
      induction H as [|kv kv' l l' [_ Hx] _ IHl]; [reflexivity|].
      inversion IH; subst. cbn. rewrite (H1 _ Hx). cbn. auto.
Qed.

Lemma lookup_elimination_witness :
  has_lookup (PyDict [("vpc", PyStr "vpc-123"); ("name", PyStr "app")]) = false
  /\ spec_has_lookup (PyDict [("vpc", PyStr "vpc-123"); ("name", PyStr "app")]) = false.
Proof.
  apply (lookup_elimination resolve_vpc "eu-west-1"
           (PyDict [("vpc", core_vpc); ("name", PyStr "app")])).
  - intros nd v. unfold resolve_vpc.
    repeat match goal with
           | |- context [match ?x with _ => _ end] => destruct x; try discriminate
           end.
    intros H; inversion H; reflexivity.
  - reflexivity.
Defined.

(** C2, as the claim has it, fails: a lookup inside the value of an AWS
    function is not resolved and reaches the output. *)
Lemma lookup_elimination_counterexample :
  spec_has_lookup
    (PyDict [("Fn::Join",
              PyList [PyStr "";
                      PyList [PyStr (HEADER ++ "a: ");
                              PyDict [("Fn::GetAtt", core_vpc)];
                              PyStr nl]])]) = true
  /\ forall resolver region,
       generate_user_data resolver nested_lookup_config region
       = ([], Ok (PyDict [("Fn::Join",
                           PyList [PyStr "";
                                   PyList [PyStr (HEADER ++ "a: ");
                                           PyDict [("Fn::GetAtt", core_vpc)];
                                           PyStr nl]])])).
Proof. split; [|intros]; vm_compute; reflexivity. Qed.

(** ** C3 *)




(** ** C4 *)




(** ** C5 *)

(** C5, as the code has it.  A mapping is handed to the resolver, whose
    result takes its place, exactly when it has both keys [Stack] and
    [Output], whatever else it holds; any other mapping becomes a placeholder
    or is rebuilt. *)
Theorem lookup_recognition
    (resolver : node -> string -> result node) (region : string)
    (entries : list (string * node)) :
  (In (PyDict entries) (calls_of (transform resolver region (PyDict entries)))
   <-> is_lookup entries = true)
  /\ (is_lookup entries = true ->
        transform resolver region (PyDict entries)
        = ([PyDict entries], resolver (PyDict entries) region))
  /\ (is_lookup entries = false ->
        transform resolver region (PyDict entries)
        = if is_deferred entries then ret (PyStr (placeholder (PyDict entries)))
          else entries' <- transform_items resolver region entries ;; ret (PyDict entries')).
Proof.
  rewrite transform_dict. destruct (is_lookup entries) eqn:E.
  - split; [|split]; [|reflexivity|discriminate].
    split; [reflexivity|]. intros _. cbn. auto.
  - split; [|split]; [|discriminate|reflexivity].
    split; [|discriminate]. intros H. exfalso.
    destruct (is_deferred entries); [destruct H|].
    rewrite calls_bind_ret in H. apply calls_items_size in H. lia.
Qed.

Lemma lookup_recognition_witness :
  is_lookup [("Stack", PyStr "core"); ("Output", PyStr "VpcId")] = true
  /\ transform resolve_vpc "eu-west-1" core_vpc = ([core_vpc], Ok (PyStr "vpc-123"))
  /\ is_lookup [("Ref", PyStr "Bucket")] = false
  /\ transform resolve_vpc "eu-west-1" (PyDict [("Ref", PyStr "Bucket")])
     = ret (PyStr (placeholder (PyDict [("Ref", PyStr "Bucket")]))).
Proof.
  split; [reflexivity|]. split.
  - apply (proj1 (proj2 (lookup_recognition resolve_vpc "eu-west-1"
                           [("Stack", PyStr "core"); ("Output", PyStr "VpcId")]))).
    reflexivity.
  - split; [reflexivity|].
    apply (proj2 (proj2 (lookup_recognition resolve_vpc "eu-west-1" [("Ref", PyStr "Bucket")]))).
    reflexivity.
Defined.

(** C5, as the claim has it, fails: a mapping with a third entry, and one
    whose two values are not strings, are handed to the resolver. *)
Lemma lookup_recognition_counterexample :
  spec_ResourceLookupNode lookup_with_extra = false
  /\ spec_ResourceLookupNode lookup_not_strings = false
  /\ forall resolver region,
       transform resolver region lookup_with_extra
       = ([lookup_with_extra], resolver lookup_with_extra region)
       /\ transform resolver region lookup_not_strings
          = ([lookup_not_strings], resolver lookup_not_strings region).
Proof. repeat split. Qed.

(** ** C6 *)

(** C6 at the inputs on which the code fails it.  The placeholder of
    [{"Ref": "x }}'y"}] between two quotes does not decode, with or without
    the serializer; and [{"Fn::Sub": "it's ${AWS::Region}"}] comes back with
    its quote doubled. *)
Theorem single_expression_round_trip_broken :
  is_deferred [("Ref", PyStr "x }}'y")] = true
  /\ is_deferred [("Fn::Sub", PyStr "it's ${AWS::Region}")] = true
  /\ split (chr SQ ++ placeholder ref_with_marker ++ chr SQ) = Raise JSONDecodeError
  /\ forall resolver region,
       generate_user_data resolver ref_with_marker region = ([], Raise JSONDecodeError)
       /\ generate_user_data resolver sub_with_quote region
          = ([], Ok (PyDict [("Fn::Join",
                              PyList [PyStr "";
                                      PyList [PyStr HEADER;
                                              PyDict [("Fn::Sub", PyStr "it''s ${AWS::Region}")];
                                              PyStr nl]])])).
Proof. repeat split; intros; vm_compute; reflexivity. Qed.

(** ** C7 *)

(** C7 at the input on which the code fails it.  [transform] puts one
    placeholder in the place of the outer function and calls nothing, but
    the inner function comes back with its quote doubled. *)
Theorem nested_expression_not_verbatim :
  forall resolver region,
    transform resolver region join_of_sub = ([], Ok (PyStr (placeholder join_of_sub)))
    /\ generate_user_data resolver join_of_sub region
       = ([], Ok (PyDict [("Fn::Join",
            PyList [PyStr "";
                    PyList [PyStr HEADER;
                            PyDict [("Fn::Join",
                                     PyList [PyStr "";
                                             PyList [PyDict [("Fn::Sub", PyStr "it''s")]]])];
                            PyStr nl]])])).
Proof. intros. split; vm_compute; reflexivity. Qed.

(** ** C8 *)



(** ** C9 *)

(** C9.  When a call of the resolver fails, [generate_user_data] raises the
    error of that call and returns nothing.  In terms of the tree: when the
    resolver fails for a lookup that the walk of [transform] meets, the walk
    stops at the first such lookup and its error is the outcome. *)
Theorem resolver_failure_propagates
    (resolver : node -> string -> result node) (region : string)
    (taupage_config nd : node) (e : exn) :
  resolver nd region = Raise e ->
  (In nd (calls_of (generate_user_data resolver taupage_config region)) ->
     outcome (generate_user_data resolver taupage_config region) = Raise e)
  /\ (In nd (lookups_visited taupage_config) ->
        exists before failed after e',
          lookups_visited taupage_config = (before ++ failed :: after)%list
          /\ Forall (fun x => exists v, resolver x region = Ok v) before
          /\ resolver failed region = Raise e'
          /\ calls_of (generate_user_data resolver taupage_config region)
             = (before ++ [failed])%list
          /\ outcome (generate_user_data resolver taupage_config region) = Raise e').
Proof.
  intros Hr. split.
  - intros Hin. revert nd e Hin Hr.
    change (fails_through resolver region
              (generate_user_data resolver taupage_config region)).
    unfold generate_user_data.
    apply fails_through_bind; [apply fails_through_transform|intros t].
    apply fails_through_bind; [|intros; apply fails_through_ret].
    intros nd e [].
  - intros Hin. pose proof (walk_log_transform resolver region taupage_config) as H.
    unfold walk_log in H. unfold generate_user_data.
    destruct (transform resolver region taupage_config) as [c [t|e']]; cbn in H.
    + destruct H as [_ Hall]. rewrite Forall_forall in Hall.
      destruct (Hall nd Hin) as [v Hv]. congruence.
    + destruct H as (before & failed & after & Hv & -> & Hb & Hf).
      exists before, failed, after, e'. cbn. auto.
Qed.

Lemma resolver_failure_propagates_witness :
  outcome (generate_user_data resolve_vpc failing_config "eu-west-1")
  = Raise (ResolverError "not found").
Proof.
  apply (resolver_failure_propagates resolve_vpc "eu-west-1" failing_config
           (PyDict [("Stack", PyStr "db"); ("Output", PyStr "Host")])).
  - reflexivity.
  - vm_compute. auto.
Defined.

(** ** C10 *)



(** * Further properties of the code *)

(** ** The patterns of the application id and version *)

Section ClassPatterns.
Import PyRe.

Lemma fullmatch_void_cat (r : regex) (s : string) : fullmatch (Cat Void r) s = false.
Proof. induction s as [|c s IH]; [reflexivity|exact IH]. Qed.

Lemma fullmatch_eps (s : string) : fullmatch Eps s = true <-> s = "".
Proof.
  destruct s as [|c s]; [tauto|]. cbn. split; [|discriminate].
  intros H. exfalso. induction s as [|d s IH]; [discriminate|]. exact (IH H).
Qed.

Lemma fullmatch_eps_cat (r : regex) (s : string) : fullmatch (Cat Eps r) s = fullmatch r s.
Proof.
  destruct s as [|c s]; [reflexivity|]. cbn.
  rewrite fullmatch_alt, fullmatch_void_cat. reflexivity.
Qed.

Lemma fullmatch_sym_cat (p : ascii -> bool) (r : regex) (s : string) :
  fullmatch (Cat (Sym p) r) s
  = match s with
    | EmptyString => false
    | String c s' => p c && fullmatch r s'
    end.
Proof.
  destruct s as [|c s]; [reflexivity|]. cbn. destruct (p c).
  - apply fullmatch_eps_cat.
  - apply fullmatch_void_cat.
Qed.

Lemma fullmatch_star_sym (p : ascii -> bool) (s : string) :
  fullmatch (Star (Sym p)) s = all_chars p s.
Proof.
  induction s as [|c s IH]; [reflexivity|]. cbn. destruct (p c).
  - rewrite fullmatch_eps_cat. exact IH.
  - apply fullmatch_void_cat.
Qed.

(** A word of [r1 r2] is a word of [r1] followed by a word of [r2]. *)
Lemma fullmatch_cat_inv (r1 r2 : regex) (s : string) :
  fullmatch (Cat r1 r2) s = true ->
  exists a b, s = a ++ b /\ fullmatch r1 a = true /\ fullmatch r2 b = true.
Proof.
  revert r1. induction s as [|c s IH]; intros r1 H.
  - cbn in H. apply andb_true_iff in H as [H1 H2]. exists "", "". auto.
  - cbn in H. destruct (nullable r1) eqn:N.
    + rewrite fullmatch_alt in H. apply orb_true_iff in H as [H|H].
      * apply IH in H as (a & b & -> & Ha & Hb). exists (String c a), b. auto.
      * exists "", (String c s). auto.
    + apply IH in H as (a & b & -> & Ha & Hb). exists (String c a), b. auto.
Qed.

Lemma fullmatch_cat_iff (r1 r2 : regex) (s : string) :
  fullmatch (Cat r1 r2) s = true <->
  exists a b, s = a ++ b /\ fullmatch r1 a = true /\ fullmatch r2 b = true.
Proof.
  split; [apply fullmatch_cat_inv|].
  intros (a & b & -> & Ha & Hb). apply fullmatch_cat; assumption.
Qed.

Lemma fullmatch_last (p : ascii -> bool) (s : string) :
  fullmatch (Cat (Sym p) Eps) s = true <-> exists l, s = String l "" /\ p l = true.
Proof.
  rewrite fullmatch_sym_cat.
  destruct s as [|l s]; [split; [discriminate|intros (l & H & _); discriminate]|].
  split.
  - intros H. apply andb_true_iff in H as [Hp H]. apply fullmatch_eps in H. subst. eauto.
  - intros (l' & H & Hp). inversion H; subst. rewrite Hp. reflexivity.
Qed.

Lemma fullmatch_sym (p : ascii -> bool) (s : string) :
  fullmatch (Sym p) s = true <-> exists l, s = String l "" /\ p l = true.
Proof.
  split.
  - destruct s as [|l s]; [discriminate|]. cbn [fullmatch deriv].
    destruct (p l) eqn:Hp.
    + intros H. apply fullmatch_eps in H. subst. eauto.
    + intros H. exfalso. clear -H. induction s as [|x s IH]; [discriminate|]. exact (IH H).
  - intros (l & -> & Hp). cbn [fullmatch deriv]. rewrite Hp. reflexivity.
Qed.

(** [$] matches at the end of the string and before a line feed that ends
    it. *)
Lemma match_anchored_iff (r : regex) (s : string) :
  match_anchored r s = true <->
  exists body tail, s = body ++ tail /\ (tail = "" \/ tail = nl) /\ fullmatch r body = true.
Proof.
  unfold match_anchored. split.
  - intros H. apply orb_true_iff in H as [H|H];
      [|apply fullmatch_cat_inv in H as (a & b & -> & Ha & Hb)].
    + exists s, "". rewrite append_nil_r. auto.
    + exists a, b. split; [reflexivity|]. split; [|exact Ha]. right.
      apply fullmatch_sym in Hb as (l & -> & Hl).
      apply Ascii.eqb_eq in Hl. subst. reflexivity.
  - intros (body & tail & -> & [->| ->] & H); apply orb_true_iff.
    + left. rewrite append_nil_r. exact H.
    + right. apply fullmatch_cat; [exact H|reflexivity].
Qed.

(** The words of [APPLICATION_ID_RE]. *)
Lemma application_id_words (s : string) :
  fullmatch APPLICATION_ID_RE s = true <->
  exists c mid l,
    s = String c (mid ++ String l "")
    /\ lower c = true /\ all_chars id_char mid = true /\ id_last l = true.
Proof.
  unfold APPLICATION_ID_RE. cbn [seq]. rewrite fullmatch_sym_cat. split.
  - destruct s as [|c s]; [discriminate|]. intros H.
    apply andb_true_iff in H as [Hc H].
    apply fullmatch_cat_inv in H as (mid & b & -> & Hm & Hb).
    rewrite fullmatch_star_sym in Hm. apply fullmatch_last in Hb as (l & -> & Hl).
    exists c, mid, l. auto.
  - intros (c & mid & l & -> & Hc & Hm & Hl). rewrite Hc. cbn [andb].
    apply fullmatch_cat; [rewrite fullmatch_star_sym; exact Hm|].
    apply fullmatch_last. eauto.
Qed.

(** The words of [APPLICATION_VERSION_RE]. *)
Lemma application_version_words (s : string) :
  fullmatch APPLICATION_VERSION_RE s = true <->
  exists c,
    alnum c = true
    /\ (s = String c ""
        \/ exists mid l,
             s = String c (mid ++ String l "")
             /\ all_chars version_char mid = true /\ alnum l = true).
Proof.
  unfold APPLICATION_VERSION_RE, opt. cbn [seq]. rewrite fullmatch_sym_cat. split.
  - destruct s as [|c s]; [discriminate|]. intros H.
    apply andb_true_iff in H as [Hc H]. exists c. split; [exact Hc|].
    apply fullmatch_cat_inv in H as (a & b & -> & Ha & Hb).
    apply fullmatch_eps in Hb. subst b. rewrite append_nil_r.
    rewrite fullmatch_alt in Ha. apply orb_true_iff in Ha as [Ha|Ha].
    + apply fullmatch_eps in Ha. subst. auto.
    + right. apply fullmatch_cat_inv in Ha as (mid & b & -> & Hm & Hb).
      rewrite fullmatch_star_sym in Hm. apply fullmatch_last in Hb as (l & -> & Hl).
      exists mid, l. auto.
  - intros (c & Hc & [->|(mid & l & -> & Hm & Hl)]); rewrite Hc; cbn [andb].
    + reflexivity.
    + rewrite <- (append_nil_r (mid ++ String l "")).
      apply fullmatch_cat; [|reflexivity]. rewrite fullmatch_alt. apply orb_true_iff. right.
      apply fullmatch_cat; [rewrite fullmatch_star_sym; exact Hm|].
      apply fullmatch_last. eauto.
Qed.

End ClassPatterns.

Lemma all_chars_impl (p q : ascii -> bool) (s : string) :
  (forall c, p c = true -> q c = true) -> all_chars p s = true -> all_chars q s = true.
Proof.
  intros Hpq. induction s as [|c s IH]; [reflexivity|]. cbn.
  rewrite !andb_true_iff. intros [H1 H2]. auto.
Qed.

(** The strings for which [APPLICATION_ID_RE.match] returns a match. *)
Lemma application_id_matches (s : string) :
  PyRe.match_anchored APPLICATION_ID_RE s = true <->
  exists c mid l tail,
    s = String c (mid ++ String l tail)
    /\ (tail = "" \/ tail = nl)
    /\ lower c = true /\ all_chars id_char mid = true /\ id_last l = true.
Proof.
  split.
  - intros E. apply match_anchored_iff in E as (body & tail & -> & Ht & H).
    apply application_id_words in H as (c & mid & l & -> & Hc & Hm & Hl).
    exists c, mid, l, tail. cbn [append]. rewrite append_assoc. auto.
  - intros (c & mid & l & tail & -> & Ht & Hc & Hm & Hl).
    apply match_anchored_iff. exists (String c (mid ++ String l "")), tail.
    split; [cbn [append]; rewrite append_assoc; reflexivity|]. split; [exact Ht|].
    apply application_id_words. exists c, mid, l. auto.
Qed.

(** The strings for which [APPLICATION_VERSION_RE.match] returns a match. *)
Lemma application_version_matches (s : string) :
  PyRe.match_anchored APPLICATION_VERSION_RE s = true <->
  exists c tail,
    (tail = "" \/ tail = nl)
    /\ alnum c = true
    /\ (s = String c tail
        \/ exists mid l,
             s = String c (mid ++ String l tail)
             /\ all_chars version_char mid = true /\ alnum l = true).
Proof.
  split.
  - intros E. apply match_anchored_iff in E as (body & tail & -> & Ht & H).
    apply application_version_words in H as (c & Hc & [->|(mid & l & -> & Hm & Hl)]);
      exists c, tail; (split; [exact Ht|]); (split; [exact Hc|]).
    + left. reflexivity.
    + right. exists mid, l. cbn [append]. rewrite append_assoc. auto.
  - intros (c & tail & Ht & Hc & Hs).
    apply match_anchored_iff. destruct Hs as [->|(mid & l & -> & Hm & Hl)].
    + exists (String c ""), tail. split; [reflexivity|]. split; [exact Ht|].
      apply application_version_words. eauto.
    + exists (String c (mid ++ String l "")), tail.
      split; [cbn [append]; rewrite append_assoc; reflexivity|]. split; [exact Ht|].
      apply application_version_words. exists c. split; [exact Hc|]. right. eauto.
Qed.

Lemma check_application_id_done (value : node) :
  check_application_id value = Done tt <->
  exists s, value = PyStr s /\ PyRe.match_anchored APPLICATION_ID_RE s = true.
Proof.
  unfold check_application_id, re_match_anchored. split.
  - destruct value as [| | |s| |]; try discriminate.
    destruct (PyRe.match_anchored APPLICATION_ID_RE s) eqn:E; [eauto|discriminate].
  - intros (s & -> & ->). reflexivity.
Qed.

Lemma check_application_version_done (value : node) :
  check_application_version value = Done tt <->
  exists s, value = PyStr s /\ PyRe.match_anchored APPLICATION_VERSION_RE s = true.
Proof.
  unfold check_application_version, re_match_anchored. split.
  - destruct value as [| | |s| |]; try discriminate.
    destruct (PyRe.match_anchored APPLICATION_VERSION_RE s) eqn:E; [eauto|discriminate].
  - intros (s & -> & ->). reflexivity.
Qed.

(** X1.  [check_application_id] accepts a value exactly when it is a string
    made of a lower-case letter, then lower-case letters, digits and hyphens,
    then a lower-case letter or a digit, with or without one line feed after
    it; so an accepted id has two characters or more.  Every other string
    raises [UsageError], and a value that is not a string raises [TypeError]. *)
Theorem check_application_id_accepts (value : node) :
  (check_application_id value = Done tt <->
   exists c mid l tail,
     value = PyStr (String c (mid ++ String l tail))
     /\ (tail = "" \/ tail = nl)
     /\ lower c = true /\ all_chars id_char mid = true /\ id_last l = true)
  /\ (check_application_id value = Done tt
      \/ ((exists s, value = PyStr s)
          /\ check_application_id value = Failed (UsageError InvalidApplicationId))
      \/ ((forall s, value <> PyStr s) /\ check_application_id value = Failed TypeError)).
Proof.
  split.
  - split.
    + intros H. apply check_application_id_done in H as (s & -> & H).
      apply application_id_matches in H as (c & mid & l & tail & -> & H).
      exists c, mid, l, tail. auto.
    + intros (c & mid & l & tail & -> & H). apply check_application_id_done.
      eexists. split; [reflexivity|]. apply application_id_matches.
      exists c, mid, l, tail. auto.
  - unfold check_application_id, re_match_anchored.
    destruct value as [| | |s| |]; try (right; right; split; [discriminate|reflexivity]).
    destruct (PyRe.match_anchored APPLICATION_ID_RE s); eauto.
Qed.

Lemma check_application_id_accepts_witness :
  check_application_id (PyStr "my-app1") = Done tt
  /\ check_application_id (PyStr ("my-app1" ++ nl)) = Done tt.
Proof.
  split.
  - apply (proj1 (check_application_id_accepts (PyStr "my-app1"))).
    exists "m"%char, "y-app", "1"%char, "". repeat split. left. reflexivity.
  - apply (proj1 (check_application_id_accepts (PyStr ("my-app1" ++ nl)))).
    exists "m"%char, "y-app", "1"%char, nl. repeat split. right. reflexivity.
Defined.

(** X2.  [check_application_version] accepts a value exactly when it is a
    string made of one letter or digit, or of a letter or digit, then letters,
    digits, dots, underscores and hyphens, then a letter or digit, with or
    without one line feed after it.  Every other string raises [UsageError],
    and a value that is not a string, such as a number, raises [TypeError]. *)
Theorem check_application_version_accepts (value : node) :
  (check_application_version value = Done tt <->
   exists c tail,
     (tail = "" \/ tail = nl)
     /\ alnum c = true
     /\ (value = PyStr (String c tail)
         \/ exists mid l,
              value = PyStr (String c (mid ++ String l tail))
              /\ all_chars version_char mid = true /\ alnum l = true))
  /\ (check_application_version value = Done tt
      \/ ((exists s, value = PyStr s)
          /\ check_application_version value = Failed (UsageError InvalidApplicationVersion))
      \/ ((forall s, value <> PyStr s)
          /\ check_application_version value = Failed TypeError)).
Proof.
  split.
  - split.
    + intros H. apply check_application_version_done in H as (s & -> & H).
      apply application_version_matches in H
        as (c & tail & Ht & Hc & [->|(mid & l & -> & H)]);
        exists c, tail; (split; [exact Ht|]); (split; [exact Hc|]); [left|right]; eauto.
    + intros (c & tail & Ht & Hc & H). apply check_application_version_done.
      destruct H as [->|(mid & l & -> & H)]; (eexists; split; [reflexivity|]);
        apply application_version_matches; exists c, tail;
        (split; [exact Ht|]); (split; [exact Hc|]); [left|right]; eauto.
  - unfold check_application_version, re_match_anchored.
    destruct value as [| | |s| |]; try (right; right; split; [discriminate|reflexivity]).
    destruct (PyRe.match_anchored APPLICATION_VERSION_RE s); eauto.
Qed.

Lemma check_application_version_accepts_witness :
  check_application_version (PyStr "7") = Done tt
  /\ check_application_version (PyStr "1.0_RC-2") = Done tt.
Proof.
  split.
  - apply (proj1 (check_application_version_accepts (PyStr "7"))).
    exists "7"%char, "". repeat split; auto.
  - apply (proj1 (check_application_version_accepts (PyStr "1.0_RC-2"))).
    exists "1"%char, "". split; [auto|]. split; [reflexivity|]. right.
    exists ".0_RC-", "2"%char. repeat split.
Defined.

(** X3.  Whatever [check_application_id] accepts, [check_application_version]
    accepts too. *)
Theorem application_id_is_a_version (value : node) :
  check_application_id value = Done tt -> check_application_version value = Done tt.
Proof.
  intros H. apply check_application_id_done in H as (s & -> & H).
  apply check_application_version_done. exists s. split; [reflexivity|].
  apply application_id_matches in H as (c & mid & l & tail & -> & Ht & Hc & Hm & Hl).
  apply application_version_matches.
  exists c, tail. split; [exact Ht|]. split.
  - unfold alnum. rewrite Hc. apply orb_true_iff. left. apply orb_true_r.
  - right. exists mid, l. split; [reflexivity|]. split.
    + revert Hm. apply all_chars_impl. intros x. unfold id_char, version_char.
      destruct (upper x), (lower x), (digit x), (Ascii.eqb x "."), (Ascii.eqb x "_"),
        (Ascii.eqb x "-"); cbn; intros; congruence.
    + unfold id_last in Hl. unfold alnum.
      destruct (upper l), (lower l), (digit l); cbn in *; congruence.
Qed.

Lemma application_id_is_a_version_witness :
  check_application_version (PyStr "my-app1") = Done tt.
Proof. apply (application_id_is_a_version (PyStr "my-app1")). reflexivity. Defined.

(** ** The image check and the component *)

Lemma io_bind_lift {A B : Type} (r : res A) (f : A -> io B) :
  io_bind (io_lift r) f = match r with Done a => f a | Failed e => ([], Failed e) end.
Proof. destruct r as [a|e]; [|reflexivity]. cbn. destruct (f a). reflexivity. Qed.

Lemma io_bind_ret {A B : Type} (a : A) (f : A -> io B) : io_bind (io_ret a) f = f a.
Proof. apply (io_bind_lift (Done a)). Qed.

Lemma io_bind_done {A B : Type} (m : io A) (f : A -> io B) (b : B) :
  result_of (io_bind m f) = Done b ->
  exists a,
    result_of m = Done a /\ result_of (f a) = Done b
    /\ events_of (io_bind m f) = (events_of m ++ events_of (f a))%list.
Proof.
  destruct m as [c [a|e]]; cbn; [|discriminate].
  destruct (f a) as [c' r] eqn:E. cbn. intros ->. exists a. rewrite E. auto.
Qed.


Lemma dict_get_set (key : string) (value : node) (entries : list (string * node)) :
  dict_get key (PyJson.dict_set key value entries) = Some value.
Proof.
  induction entries as [|[k v] l IH]; cbn.
  - rewrite String.eqb_refl. reflexivity.
  - destruct (String.eqb key k) eqn:E; cbn; [rewrite String.eqb_refl|rewrite E]; auto.
Qed.

Lemma dict_get_set_other (key other : string) (value : node)
    (entries : list (string * node)) :
  other <> key ->
  dict_get other (PyJson.dict_set key value entries) = dict_get other entries.
Proof.
  intros Hne. induction entries as [|[k v] l IH]; cbn.
  - destruct (String.eqb other key) eqn:E; [apply String.eqb_eq in E; contradiction|reflexivity].
  - destruct (String.eqb key k) eqn:E; cbn.
    + apply String.eqb_eq in E. subst k.
      destruct (String.eqb other key) eqn:E'; [apply String.eqb_eq in E'; contradiction|].
      reflexivity.
    + rewrite IH. reflexivity.
Qed.

Lemma dict_set_absent (key : string) (value : node) (entries : list (string * node)) :
  contains key entries = false ->
  PyJson.dict_set key value entries = (entries ++ [(key, value)])%list.
Proof.
  unfold contains. induction entries as [|[k v] l IH]; cbn; [reflexivity|].
  intros H. apply orb_false_iff in H as [H1 H2]. rewrite H1, (IH H2). reflexivity.
Qed.

Lemma getitem_setitem (container container' : node) (key : string) (value : node) :
  setitem container key value = Done container' -> getitem container' key = Done value.
Proof.
  destruct container; try discriminate. cbn. intros H. inversion H. cbn.
  rewrite dict_get_set. reflexivity.
Qed.

(** What was stored at the end of a path is found there. *)
Lemma get_path_set_path (path : list string) (key : string) (value container container' : node) :
  set_path container path key value = Done container' ->
  get_path container' (path ++ [key]) = Done value.
Proof.
  revert container container'. induction path as [|k path IH]; intros c c' H; cbn in *.
  - rewrite (getitem_setitem _ _ _ _ H). reflexivity.
  - destruct (getitem c k) as [inner|e]; [|discriminate].
    destruct (set_path inner path key value) as [inner'|e] eqn:E; [|discriminate].
    rewrite (getitem_setitem _ _ _ _ H). apply IH with inner. exact E.
Qed.

Lemma from_external_done {A : Type} (r : external A) (a : A) :
  from_external r = Done a -> r = Returned a.
Proof. destruct r; cbn; intros H; inversion H; reflexivity. Qed.

Lemma io_bind_pure_call {A B : Type} (r : external A) (f : A -> io B) :
  io_bind (pure_call r) f
  = match from_external r with Done a => f a | Failed e => ([], Failed e) end.
Proof. apply (io_bind_lift (from_external r)). Qed.

Lemma contains_app (key : string) (l l' : list (string * node)) :
  contains key (l ++ l') = contains key l || contains key l'.
Proof. unfold contains. apply existsb_app. Qed.

(** A default leaves a dictionary that has the key as it is, and appends
    the entry to one that has not. *)
Lemma default_from_info_dict (key info_key : string) (info taupage_config : node)
    (entries' : list (string * node)) :
  default_from_info key info_key info taupage_config = Done (PyDict entries') ->
  exists entries,
    taupage_config = PyDict entries
    /\ if contains key entries then entries' = entries
       else exists value,
              getitem info info_key = Done value
              /\ entries' = (entries ++ [(key, value)])%list.
Proof.
  unfold default_from_info. destruct taupage_config as [| | |s|items|entries]; cbn [py_in];
    try discriminate.
  - destruct (is_substring key s); [discriminate|].
    destruct (getitem info info_key); discriminate.
  - destruct (existsb (is_str key) items); [discriminate|].
    destruct (getitem info info_key); discriminate.
  - destruct (contains key entries) eqn:E.
    + intros H. inversion H; subst. exists entries'. rewrite E. auto.
    + destruct (getitem info info_key) as [value|]; [|discriminate]. cbn.
      intros H. inversion H; subst. exists entries. rewrite E. split; [reflexivity|].
      exists value. split; [reflexivity|]. apply dict_set_absent, E.
Qed.

Lemma default_notify_cfn_dict (configuration info taupage_config : node)
    (entries' : list (string * node)) :
  default_notify_cfn configuration info taupage_config = Done (PyDict entries') ->
  exists entries,
    taupage_config = PyDict entries
    /\ if contains "notify_cfn" entries then entries' = entries
       else exists stack_name stack_version name_text version_text resource,
              getitem info "StackName" = Done stack_name
              /\ getitem info "StackVersion" = Done stack_version
              /\ str_of stack_name = Done name_text
              /\ str_of stack_version = Done version_text
              /\ getitem configuration "Name" = Done resource
              /\ entries'
                 = (entries
                    ++ [("notify_cfn",
                         PyDict [("stack", PyStr (name_text ++ "-" ++ version_text));
                                 ("resource", resource)])])%list.
Proof.
  unfold default_notify_cfn.
  destruct taupage_config as [| | |s|items|entries]; cbn [py_in]; try discriminate.
  - destruct (is_substring "notify_cfn" s); [discriminate|].
    repeat match goal with
           | |- context [match ?r with Done _ => _ | Failed _ => _ end] =>
               destruct r; try discriminate
           end.
  - destruct (existsb (is_str "notify_cfn") items); [discriminate|].
    repeat match goal with
           | |- context [match ?r with Done _ => _ | Failed _ => _ end] =>
               destruct r; try discriminate
           end.
  - destruct (contains "notify_cfn" entries) eqn:E.
    + intros H. inversion H; subst. exists entries'. rewrite E. auto.
    + destruct (getitem info "StackName") as [stack_name|]; [|discriminate].
      destruct (getitem info "StackVersion") as [stack_version|]; [|discriminate].
      destruct (str_of stack_name) as [name_text|] eqn:E1; [|discriminate].
      destruct (str_of stack_version) as [version_text|] eqn:E2; [|discriminate].
      destruct (getitem configuration "Name") as [resource|]; [|discriminate].
      cbn. intros H. inversion H; subst. exists entries. rewrite E. split; [reflexivity|].
      exists stack_name, stack_version, name_text, version_text, resource.
      repeat (split; [first [reflexivity|assumption]|]). apply dict_set_absent, E.
Qed.

Lemma getitem_dict (container : node) (key : string) (value : node) :
  getitem container key = Done value ->
  exists entries, container = PyDict entries /\ dict_get key entries = Some value.
Proof.
  destruct container as [| | | | |entries]; try discriminate. cbn.
  destruct (dict_get key entries) as [v|] eqn:E; [|discriminate].
  intros H. inversion H; subst. eauto.
Qed.

Lemma getitem_setitem_other (container container' : node) (key other : string)
    (value : node) :
  other <> key -> setitem container key value = Done container' ->
  getitem container' other = getitem container other.
Proof.
  intros Hne. destruct container; try discriminate. cbn. intros H. inversion H. cbn.
  rewrite (dict_get_set_other _ _ _ _ Hne). reflexivity.
Qed.


(** The operations on values raise no usage error. *)
Definition plain (e : error) : Prop :=
  match e with
  | UsageError _ => False
  | _ => True
  end.

Lemma py_in_fail (key : string) (container : node) (e : error) :
  py_in key container = Failed e -> plain e.
Proof. destruct container; cbn; intros H; inversion H; exact I. Qed.

Lemma getitem_fail (container : node) (key : string) (e : error) :
  getitem container key = Failed e -> plain e.
Proof.
  destruct container as [| | | | |entries]; cbn; try (intros H; inversion H; exact I).
  destruct (dict_get key entries); intros H; inversion H; exact I.
Qed.

Lemma get_fail (container : node) (key : string) (e : error) :
  py_get container key = Failed e -> plain e.
Proof.
  destruct container as [| | | | |entries]; cbn; try (intros H; inversion H; exact I).
  destruct (dict_get key entries); intros H; inversion H.
Qed.

Lemma setitem_fail (container : node) (key : string) (value : node) (e : error) :
  setitem container key value = Failed e -> plain e.
Proof. destruct container; cbn; intros H; inversion H; exact I. Qed.

Lemma str_of_fail (value : node) (e : error) : str_of value = Failed e -> plain e.
Proof. destruct value as [|[]| | | |]; cbn; intros H; inversion H; exact I. Qed.

Lemma add_str_fail (a : node) (b : string) (e : error) : add_str a b = Failed e -> plain e.
Proof. destruct a; cbn; intros H; inversion H; exact I. Qed.

Lemma from_external_fail {A : Type} (r : external A) (e : error) :
  from_external r = Failed e -> plain e.
Proof. destruct r; cbn; intros H; inversion H; exact I. Qed.

Lemma set_path_fail (path : list string) (key : string) (value container : node)
    (e : error) :
  set_path container path key value = Failed e -> plain e.
Proof.
  revert container. induction path as [|k path IH]; intros container; cbn.
  - apply setitem_fail.
  - destruct (getitem container k) as [inner|e'] eqn:E.
    + destruct (set_path inner path key value) as [inner'|e''] eqn:E'.
      * apply setitem_fail.
      * intros H. inversion H; subst. apply (IH _ E').
    + intros H. inversion H; subst. apply (getitem_fail _ _ _ E).
Qed.

Lemma default_from_info_fail (key info_key : string) (info taupage_config : node)
    (e : error) :
  default_from_info key info_key info taupage_config = Failed e -> plain e.
Proof.
  unfold default_from_info.
  destruct (py_in key taupage_config) as [[]|e'] eqn:E1; try discriminate.
  - destruct (getitem info info_key) as [value|e'] eqn:E2.
    + apply setitem_fail.
    + intros H. inversion H; subst. apply (getitem_fail _ _ _ E2).
  - intros H. inversion H; subst. apply (py_in_fail _ _ _ E1).
Qed.

Lemma default_notify_cfn_fail (configuration info taupage_config : node) (e : error) :
  default_notify_cfn configuration info taupage_config = Failed e -> plain e.
Proof.
  unfold default_notify_cfn.
  destruct (py_in "notify_cfn" taupage_config) as [[]|e'] eqn:E1; try discriminate.
  - destruct (getitem info "StackName") as [stack_name|e'] eqn:E2;
      [|intros H; inversion H; subst; apply (getitem_fail _ _ _ E2)].
    destruct (getitem info "StackVersion") as [stack_version|e'] eqn:E3;
      [|intros H; inversion H; subst; apply (getitem_fail _ _ _ E3)].
    destruct (str_of stack_name) as [name_text|e'] eqn:E4;
      [|intros H; inversion H; subst; apply (str_of_fail _ _ E4)].
    destruct (str_of stack_version) as [version_text|e'] eqn:E5;
      [|intros H; inversion H; subst; apply (str_of_fail _ _ E5)].
    destruct (getitem configuration "Name") as [resource|e'] eqn:E6;
      [|intros H; inversion H; subst; apply (getitem_fail _ _ _ E6)].
    apply setitem_fail.
  - intros H. inversion H; subst. apply (py_in_fail _ _ _ E1).
Qed.

Lemma user_data_fail (m : M node) (e : error) :
  result_of (user_data m) = Failed e -> plain e.
Proof.
  unfold user_data, result_of. cbn [snd]. destruct (outcome m); intros H; inversion H.
  exact I.
Qed.

Lemma io_bind_fail {A B : Type} (m : io A) (f : A -> io B) (e : error) :
  result_of (io_bind m f) = Failed e ->
  (result_of m = Failed e /\ events_of (io_bind m f) = events_of m)
  \/ exists a, result_of m = Done a /\ result_of (f a) = Failed e.
Proof.
  unfold result_of, events_of, io_bind. destruct m as [c [a|e']]; cbn [fst snd].
  - destruct (f a) as [c' r] eqn:E. cbn [fst snd]. intros ->. right. exists a.
    rewrite E. split; reflexivity.
  - intros H. left. inversion H. split; reflexivity.
Qed.

Lemma contains_dict_get (key : string) (entries : list (string * node)) :
  contains key entries = true -> exists value, dict_get key entries = Some value.
Proof.
  unfold contains. induction entries as [|[k v] l IH]; cbn; [discriminate|].
  destruct (String.eqb key k); cbn; eauto.
Qed.

(** The warning that [check_docker_image_exists] prints for what
    [get_image_tag] returned. *)
Lemma warning_for_cases (image_tag : node) (warn : option warning) :
  warning_for image_tag = Done warn ->
  (exists entries severity,
     image_tag = PyDict entries
     /\ dict_get "severity_fix_available" entries = Some severity
     /\ if is_str "COULDNT_FIGURE_OUT" severity || is_str "NO_CVES_FOUND" severity
        then warn = None
        else warn = Some (SeverityFixAvailable severity))
  \/ ((image_tag = PyNone \/ py_in "severity_fix_available" image_tag = Done false)
      /\ warn = Some NotChecked).
Proof.
  unfold warning_for. destruct image_tag as [| | |s|items|entries].
  - intros H. inversion H. auto.
  - discriminate.
  - discriminate.
  - cbn [py_in]. destruct (is_substring "severity_fix_available" s) eqn:E.
    + discriminate.
    + intros H. inversion H. right. split; [right|]; reflexivity.
  - cbn [py_in]. destruct (existsb (is_str "severity_fix_available") items) eqn:E.
    + discriminate.
    + intros H. inversion H. right. split; [right|]; reflexivity.
  - cbn [py_in py_get getitem]. destruct (contains "severity_fix_available" entries) eqn:E.
    + apply contains_dict_get in E as [severity E]. rewrite E. intros H. left.
      exists entries, severity. split; [reflexivity|]. split; [exact E|].
      destruct (is_str "COULDNT_FIGURE_OUT" severity || is_str "NO_CVES_FOUND" severity);
        cbn [negb] in H; inversion H; reflexivity.
    + intros H. inversion H. right. split; [right|]; reflexivity.
Qed.

Section ComponentFacts.

Variable get_existing_token : string -> external node.
Variable image_exists : DockerImage -> node -> external node.
Variable docker_image_exists : string -> external node.
Variable get_image_tag : DockerImage -> node -> external node.
Variable image_name : DockerImage -> string.
Variable parse : node -> external DockerImage.
Variable Args AccountInfo : Type.
Variable args_region : Args -> string.
Variable component_auto_scaling_group :
  node -> node -> Args -> node -> bool -> AccountInfo -> external (node * node).
Variable ensure_keys : node -> list string -> external node.
Variable resolve_referenced_resource : node -> string -> result node.

Local Abbreviation check :=
  (check_docker_image_exists get_existing_token image_exists docker_image_exists
     get_image_tag image_name).
Local Abbreviation component :=
  (component_taupage_auto_scaling_group get_existing_token image_exists
     docker_image_exists get_image_tag image_name parse Args AccountInfo args_region
     component_auto_scaling_group ensure_keys resolve_referenced_resource).

Tactic Notation "io_step" hyp(H) "as" simple_intropattern(x) ident(E) :=
  first [rewrite io_bind_lift in H | rewrite io_bind_pure_call in H];
  match type of H with
  | context [match ?r with Done _ => _ | Failed _ => _ end] =>
      destruct r as [x|] eqn:E; [|discriminate H]
  end.

Ltac break_match :=
  match goal with
  | |- context [match ?x with _ => _ end] => destruct x eqn:?
  | H : context [match ?x with _ => _ end] |- _ => destruct x eqn:?
  end.

Ltac tidy :=
  cbn [fst snd negb List.app] in *;
  repeat match goal with
         | E : (_, _) = (_, _) |- _ => inversion E; subst; clear E
         | E : Done _ = Done _ |- _ => inversion E; subst; clear E
         | E : Failed _ = Failed _ |- _ => inversion E; subst; clear E
         | E : Returned _ = Returned _ |- _ => inversion E; subst; clear E
         | E : Some _ = Some _ |- _ => inversion E; subst; clear E
         | E : py_in _ _ = Failed (UsageError _) |- _ => destruct (py_in_fail _ _ _ E)
         | E : getitem _ _ = Failed (UsageError _) |- _ => destruct (getitem_fail _ _ _ E)
         | E : py_get _ _ = Failed (UsageError _) |- _ => destruct (get_fail _ _ _ E)
         end;
  try discriminate.

Ltac run_check :=
  unfold check_docker_image_exists, image_lookup, call, io_lift, io_ret,
    io_fail, io_bind, events_of, result_of, from_external in *.

Ltac no_usage E :=
  first [ exact (py_in_fail _ _ _ E) | exact (getitem_fail _ _ _ E)
        | exact (get_fail _ _ _ E) | exact (setitem_fail _ _ _ _ E)
        | exact (from_external_fail _ _ E) | exact (add_str_fail _ _ _ E)
        | exact (set_path_fail _ _ _ _ _ E)
        | exact (default_notify_cfn_fail _ _ _ _ E)
        | exact (default_from_info_fail _ _ _ _ _ E) ].

Tactic Notation "fail_case" "as" simple_intropattern(x) ident(E) :=
  first [rewrite io_bind_lift in * | rewrite io_bind_pure_call in *];
  match goal with
  | H : context [match ?r with Done _ => _ | Failed _ => _ end] |- _ =>
      destruct r as [x|] eqn:E; [|cbn in H; inversion H; subst]
  end.

Tactic Notation "fail_step" "as" simple_intropattern(x) ident(E) :=
  fail_case as x E; [|exfalso; no_usage E].


(** The steps of a run of [check_docker_image_exists] that returns. *)
Lemma check_done (docker_image : DockerImage) (value : node) :
  result_of (check docker_image) = Done value ->
  value = PyBool true
  /\ exists name token answer image_tag warn queries,
       registry docker_image = Some name
       /\ (if is_substring "pierone" name
           then exists stored,
                  get_existing_token "pierone" = Returned stored
                  /\ truthy stored = true
                  /\ getitem stored "access_token" = Done token
                  /\ image_exists docker_image token = Returned answer
                  /\ queries = [GetExistingToken "pierone"; ImageExists docker_image token]
           else token = PyNone
                /\ docker_image_exists (image_name docker_image) = Returned answer
                /\ queries = [DockerImageExists (image_name docker_image)])
       /\ truthy answer = true
       /\ get_image_tag docker_image token = Returned image_tag
       /\ warning_for image_tag = Done warn
       /\ events_of (check docker_image)
          = (queries ++ GetImageTag docker_image token
               :: match warn with
                  | Some warn_msg => [Secho warn_msg]
                  | None => []
                  end)%list.
Proof.
  run_check. intros H.
  destruct (registry docker_image) as [name|] eqn:Er; [|discriminate H].
  destruct (is_substring "pierone" name) eqn:Ep.
  - destruct (get_existing_token "pierone") as [stored|] eqn:E1; [|discriminate H].
    destruct (truthy stored) eqn:E2; cbn [negb] in *; [|discriminate H].
    destruct (getitem stored "access_token") as [token|] eqn:E3; [|discriminate H].
    destruct (image_exists docker_image token) as [answer|] eqn:E4; [|discriminate H].
    cbn [fst snd List.app] in *.
    destruct (truthy answer) eqn:E5; cbn [negb] in *; [|discriminate H].
    destruct (get_image_tag docker_image token) as [image_tag|] eqn:E6; [|discriminate H].
    destruct (warning_for image_tag) as [warn|] eqn:E7; [|discriminate H].
    assert (Hv : value = PyBool true)
      by (destruct warn; cbn [fst snd] in H; inversion H; reflexivity).
    split; [exact Hv|].
    exists name, token, answer, image_tag, warn,
      [GetExistingToken "pierone"; ImageExists docker_image token].
    rewrite Ep. split; [reflexivity|].
    split; [exists stored; repeat split; first [reflexivity|assumption]|].
    repeat (split; [first [reflexivity|assumption]|]). destruct warn; reflexivity.
  - destruct (docker_image_exists (image_name docker_image)) as [answer|] eqn:E4;
      [|discriminate H].
    cbn [fst snd List.app] in *.
    destruct (truthy answer) eqn:E5; cbn [negb] in *; [|discriminate H].
    destruct (get_image_tag docker_image PyNone) as [image_tag|] eqn:E6; [|discriminate H].
    destruct (warning_for image_tag) as [warn|] eqn:E7; [|discriminate H].
    assert (Hv : value = PyBool true)
      by (destruct warn; cbn [fst snd] in H; inversion H; reflexivity).
    split; [exact Hv|].
    exists name, PyNone, answer, image_tag, warn,
      [DockerImageExists (image_name docker_image)].
    rewrite Ep. split; [reflexivity|].
    split; [repeat split; first [reflexivity|assumption]|].
    repeat (split; [first [reflexivity|assumption]|]). destruct warn; reflexivity.
Qed.

(** X4.  [check_docker_image_exists] returns nothing but [True], and only
    after the registry it asked has said that the image exists: Pier One, with
    the access token of the token store, when the name of the registry holds
    [pierone], and the Docker registry otherwise.  The report on the tag is
    asked for after that, and at most one warning is printed at the end. *)
Theorem image_check_confirms_existence (docker_image : DockerImage) (value : node) :
  result_of (check docker_image) = Done value ->
  value = PyBool true
  /\ exists name token answer queries printed,
       registry docker_image = Some name
       /\ (if is_substring "pierone" name
           then exists stored,
                  get_existing_token "pierone" = Returned stored
                  /\ truthy stored = true
                  /\ getitem stored "access_token" = Done token
                  /\ image_exists docker_image token = Returned answer
                  /\ queries = [GetExistingToken "pierone"; ImageExists docker_image token]
           else token = PyNone
                /\ docker_image_exists (image_name docker_image) = Returned answer
                /\ queries = [DockerImageExists (image_name docker_image)])
       /\ truthy answer = true
       /\ events_of (check docker_image)
          = (queries ++ GetImageTag docker_image token :: printed)%list
       /\ (printed = [] \/ exists warn_msg, printed = [Secho warn_msg]).
Proof.
  intros H. apply check_done in H
    as (Hv & name & token & answer & image_tag & warn & queries
        & Hr & Hq & Ha & _ & _ & He).
  split; [exact Hv|]. exists name, token, answer, queries.
  exists (match warn with Some warn_msg => [Secho warn_msg] | None => [] end).
  repeat (split; [assumption|]). destruct warn as [warn_msg|]; eauto.
Qed.

(** The usage errors of [check_docker_image_exists], with the calls made
    before each. *)
Lemma check_usage_error (docker_image : DockerImage) (raised : usage) :
  result_of (check docker_image) = Failed (UsageError raised) ->
  (raised = Unauthorized docker_image
   /\ events_of (check docker_image) = [GetExistingToken "pierone"])
  \/ (raised = ImageDoesNotExist docker_image
      /\ (events_of (check docker_image) = [DockerImageExists (image_name docker_image)]
          \/ exists token,
               events_of (check docker_image)
               = [GetExistingToken "pierone"; ImageExists docker_image token])).
Proof.
  run_check. unfold warning_for. intros H.
  repeat (break_match; tidy); eauto 6.
Qed.


(** X6.  Whether [check_docker_image_exists] prints a warning is decided by
    the report on the tag alone: nothing is printed exactly when the report is
    a dictionary whose [severity_fix_available] is [COULDNT_FIGURE_OUT] or
    [NO_CVES_FOUND]; another value of that key is printed in the warning; and
    without a report, or without the key, the image is reported as not
    checked. *)
Theorem image_check_warning (docker_image : DockerImage) (value : node) :
  result_of (check docker_image) = Done value ->
  exists token image_tag queries printed,
    get_image_tag docker_image token = Returned image_tag
    /\ events_of (check docker_image)
       = (queries ++ GetImageTag docker_image token :: printed)%list
    /\ ((exists entries severity,
           image_tag = PyDict entries
           /\ dict_get "severity_fix_available" entries = Some severity
           /\ printed
              = if is_str "COULDNT_FIGURE_OUT" severity || is_str "NO_CVES_FOUND" severity
                then []
                else [Secho (SeverityFixAvailable severity)])
        \/ ((image_tag = PyNone \/ py_in "severity_fix_available" image_tag = Done false)
            /\ printed = [Secho NotChecked])).
Proof.
  intros H. apply check_done in H
    as (_ & name & token & answer & image_tag & warn & queries
        & _ & _ & _ & Ht & Hw & He).
  exists token, image_tag, queries.
  exists (match warn with Some warn_msg => [Secho warn_msg] | None => [] end).
  split; [exact Ht|]. split; [exact He|].
  apply warning_for_cases in Hw as [(entries & severity & -> & Hs & Hw)|[Hn ->]].
  - left. exists entries, severity. split; [reflexivity|]. split; [exact Hs|].
    destruct (is_str "COULDNT_FIGURE_OUT" severity || is_str "NO_CVES_FOUND" severity);
      subst warn; reflexivity.
  - right. auto.
Qed.

(** The steps of a run of the component that returns. *)
Lemma component_done
    (definition configuration : node) (args : Args) (info : node) (force : bool)
    (account_info : AccountInfo) (definition' configuration' : node) :
  result_of (component definition configuration args info force account_info)
  = Done (definition', configuration') ->
  exists with_image d1 c1 tc0 tc1 tc2 tc3 application_id application_version
         source docker_image userdata name d2,
    (exists has_image,
       py_in "Image" configuration = Done has_image
       /\ (if has_image then Done configuration
           else setitem configuration "Image" (PyStr "LatestTaupageImage"))
          = Done with_image)
    /\ component_auto_scaling_group definition with_image args info force account_info
       = Returned (d1, c1)
    /\ getitem c1 "TaupageConfig" = Done tc0
    /\ default_notify_cfn c1 info tc0 = Done tc1
    /\ default_from_info "application_id" "StackName" info tc1 = Done tc2
    /\ default_from_info "application_version" "StackVersion" info tc2 = Done tc3
    /\ getitem tc3 "application_id" = Done application_id
    /\ check_application_id application_id = Done tt
    /\ getitem tc3 "application_version" = Done application_version
    /\ check_application_version application_version = Done tt
    /\ py_get tc3 "runtime" = Done (PyStr "Docker")
    /\ py_get tc3 "source" = Done source
    /\ truthy source = true
    /\ parse source = Returned docker_image
    /\ outcome (generate_user_data resolve_referenced_resource tc3 (args_region args))
       = Ok userdata
    /\ getitem c1 "Name" = Done (PyStr name)
    /\ ensure_keys d1 ["Resources"; name ++ "Config"; "Properties"; "UserData"]
       = Returned d2
    /\ set_path d2 ["Resources"; name ++ "Config"; "Properties"; "UserData"]
         "Fn::Base64" userdata = Done definition'
    /\ setitem c1 "TaupageConfig" tc3 = Done configuration'.
Proof.
  unfold component_taupage_auto_scaling_group. intros H.
  io_step H as has_image E1. io_step H as with_image E2. io_step H as [d1 c1] E3.
  io_step H as tc0 E4. io_step H as tc1 E5. io_step H as tc2 E6. io_step H as tc3 E7.
  io_step H as application_id E8. io_step H as [] E9.
  io_step H as application_version E10. io_step H as [] E11.
  io_step H as runtime E12.
  destruct (is_str "Docker" runtime) eqn:Hrt; [|discriminate H]. cbn [negb] in H.
  io_step H as source E13. destruct (truthy source) eqn:Hsrc; [|discriminate H].
  cbn [negb] in H. io_step H as docker_image E14.
  apply io_bind_done in H as (_ & _ & H & _).
  apply io_bind_done in H as (userdata & Hu & H & _).
  io_step H as name E15. io_step H as config_name E16. io_step H as d2 E17.
  io_step H as d3 E18. io_step H as c2 E19.
  cbn in H. inversion H; subst d3 c2. clear H.
  unfold user_data, result_of in Hu. cbn [snd] in Hu.
  destruct (outcome (generate_user_data resolve_referenced_resource tc3 (args_region args)))
    as [v|e] eqn:Eg; [|discriminate Hu]. inversion Hu; subst v. clear Hu.
  destruct name as [| | |s| |]; try discriminate E16. cbn in E16.
  inversion E16; subst config_name. clear E16.
  destruct runtime as [| | |r| |]; try discriminate Hrt. cbn in Hrt.
  apply String.eqb_eq in Hrt. subst r.
  exists with_image, d1, c1, tc0, tc1, tc2, tc3, application_id, application_version,
    source, docker_image, userdata, s, d2.
  apply from_external_done in E3, E14, E17.
  split; [exists has_image; auto|]. repeat (split; [assumption|]). assumption.
Qed.

(** X7.  A run of the component that returns has left every entry of the
    Taupage configuration in its place and appended, in this order, those of
    [notify_cfn], [application_id] and [application_version] that were
    missing, with the stack name and version of [info] as the defaults.  The
    configuration that the caller holds has the completed Taupage
    configuration. *)
Theorem component_fills_defaults
    (definition configuration : node) (args : Args) (info : node) (force : bool)
    (account_info : AccountInfo) (definition' configuration' : node) :
  result_of (component definition configuration args info force account_info)
  = Done (definition', configuration') ->
  exists with_image d1 c1 entries added,
    component_auto_scaling_group definition with_image args info force account_info
    = Returned (d1, c1)
    /\ getitem c1 "TaupageConfig" = Done (PyDict entries)
    /\ getitem configuration' "TaupageConfig" = Done (PyDict (entries ++ added))
    /\ map fst added
       = filter (fun key => negb (contains key entries))
           ["notify_cfn"; "application_id"; "application_version"]
    /\ (forall value, In ("application_id", value) added ->
          getitem info "StackName" = Done value)
    /\ (forall value, In ("application_version", value) added ->
          getitem info "StackVersion" = Done value)
    /\ (forall value, In ("notify_cfn", value) added ->
          exists stack_name stack_version name_text version_text resource,
            getitem info "StackName" = Done stack_name
            /\ getitem info "StackVersion" = Done stack_version
            /\ str_of stack_name = Done name_text
            /\ str_of stack_version = Done version_text
            /\ getitem c1 "Name" = Done resource
            /\ value = PyDict [("stack", PyStr (name_text ++ "-" ++ version_text));
                               ("resource", resource)]).
Proof.
  intros H.
  apply component_done in H
    as (with_image & d1 & c1 & tc0 & tc1 & tc2 & tc3 & application_id & application_version
        & source & docker_image & userdata & name & d2
        & _ & Hc & H0 & H1 & H2 & H3 & Hid & _ & _ & _ & _ & _ & _ & _ & _ & _ & _ & _ & Hset).
  apply getitem_dict in Hid as (l3 & -> & _).
  apply default_from_info_dict in H3 as (l2 & -> & H3).
  apply default_from_info_dict in H2 as (l1 & -> & H2).
  apply default_notify_cfn_dict in H1 as (l0 & -> & H1).
  apply getitem_setitem in Hset.
  exists with_image, d1, c1, l0.
  assert (Hne : forall key, key <> "notify_cfn" -> forall v,
            contains key (l0 ++ [("notify_cfn", v)]) = contains key l0).
  { intros key Hk v. rewrite contains_app. cbn.
    destruct (String.eqb key "notify_cfn") eqn:E; [apply String.eqb_eq in E; contradiction|].
    rewrite !orb_false_r. reflexivity. }
  assert (Hne' : forall l v, contains "application_version" (l ++ [("application_id", v)])
                             = contains "application_version" l).
  { intros l v. rewrite contains_app. cbn. rewrite !orb_false_r. reflexivity. }
  cbn [filter].
  destruct (contains "notify_cfn" l0) eqn:C0.
  - subst l1. destruct (contains "application_id" l0) eqn:C1.
    + subst l2. destruct (contains "application_version" l0) eqn:C2.
      * subst l3. exists []. rewrite List.app_nil_r. cbn.
        repeat (split; [first [assumption|reflexivity|intros ? []]|]). intros ? [].
      * destruct H3 as (v3 & Hv3 & ->). exists [("application_version", v3)]. cbn.
        repeat (split; [first [assumption|reflexivity]|]).
        split; [intros ? [E|[]]; discriminate E|]. split.
        -- intros ? [E|[]]. inversion E; subst. exact Hv3.
        -- intros ? [E|[]]. discriminate E.
    + destruct H2 as (v2 & Hv2 & ->). rewrite Hne' in H3.
      destruct (contains "application_version" l0) eqn:C2.
      * subst l3. exists [("application_id", v2)]. cbn.
        repeat (split; [first [assumption|reflexivity]|]). split; [|split].
        -- intros ? [E|[]]. inversion E; subst. exact Hv2.
        -- intros ? [E|[]]. discriminate E.
        -- intros ? [E|[]]. discriminate E.
      * destruct H3 as (v3 & Hv3 & ->).
        exists [("application_id", v2); ("application_version", v3)].
        rewrite <- List.app_assoc in Hset. cbn in *.
        repeat (split; [first [assumption|reflexivity]|]). split; [|split].
        -- intros ? [E|[E|[]]]; inversion E; subst. exact Hv2.
        -- intros ? [E|[E|[]]]; inversion E; subst. exact Hv3.
        -- intros ? [E|[E|[]]]; discriminate E.
  - destruct H1 as (sn & sv & tn & tv & res & Hsn & Hsv & Htn & Htv & Hres & ->).
    set (notify := PyDict [("stack", PyStr (tn ++ "-" ++ tv)); ("resource", res)]) in *.
    assert (Hn : forall value, ("notify_cfn", notify) = ("notify_cfn", value) ->
              exists stack_name stack_version name_text version_text resource,
                getitem info "StackName" = Done stack_name
                /\ getitem info "StackVersion" = Done stack_version
                /\ str_of stack_name = Done name_text
                /\ str_of stack_version = Done version_text
                /\ getitem c1 "Name" = Done resource
                /\ value = PyDict [("stack", PyStr (name_text ++ "-" ++ version_text));
                                   ("resource", resource)]).
    { intros value E. inversion E. exists sn, sv, tn, tv, res.
      repeat (split; [assumption|]). reflexivity. }
    rewrite (Hne "application_id") in H2 by discriminate.
    destruct (contains "application_id" l0) eqn:C1.
    + subst l2. rewrite (Hne "application_version") in H3 by discriminate.
      destruct (contains "application_version" l0) eqn:C2.
      * subst l3. exists [("notify_cfn", notify)]. cbn.
        repeat (split; [first [assumption|reflexivity]|]). split; [|split].
        -- intros ? [E|[]]. discriminate E.
        -- intros ? [E|[]]. discriminate E.
        -- intros ? [E|[]]. auto.
      * destruct H3 as (v3 & Hv3 & ->).
        exists [("notify_cfn", notify); ("application_version", v3)].
        rewrite <- List.app_assoc in Hset. cbn in *.
        repeat (split; [first [assumption|reflexivity]|]). split; [|split].
        -- intros ? [E|[E|[]]]; discriminate E.
        -- intros ? [E|[E|[]]]; inversion E; subst. exact Hv3.
        -- intros ? [E|[E|[]]]; [auto|discriminate E].
    + destruct H2 as (v2 & Hv2 & ->). rewrite Hne', (Hne "application_version") in H3
        by discriminate.
      destruct (contains "application_version" l0) eqn:C2.
      * subst l3. exists [("notify_cfn", notify); ("application_id", v2)].
        rewrite <- List.app_assoc in Hset. cbn in *.
        repeat (split; [first [assumption|reflexivity]|]). split; [|split].
        -- intros ? [E|[E|[]]]; inversion E; subst. exact Hv2.
        -- intros ? [E|[E|[]]]; discriminate E.
        -- intros ? [E|[E|[]]]; [auto|discriminate E].
      * destruct H3 as (v3 & Hv3 & ->).
        exists [("notify_cfn", notify); ("application_id", v2); ("application_version", v3)].
        rewrite <- !List.app_assoc in Hset. cbn in *.
        repeat (split; [first [assumption|reflexivity]|]). split; [|split].
        -- intros ? [E|[E|[E|[]]]]; inversion E; subst. exact Hv2.
        -- intros ? [E|[E|[E|[]]]]; inversion E; subst. exact Hv3.
        -- intros ? [E|[E|[E|[]]]]; [auto|discriminate E|discriminate E].
Qed.

(** X8.  A run of the component that returns has checked the Taupage
    configuration that it leaves to the caller: its application id and version
    are strings that the two patterns match, its runtime is [Docker], and its
    source is not empty. *)
Theorem component_validates_configuration
    (definition configuration : node) (args : Args) (info : node) (force : bool)
    (account_info : AccountInfo) (definition' configuration' : node) :
  result_of (component definition configuration args info force account_info)
  = Done (definition', configuration') ->
  exists taupage_config application_id application_version source,
    getitem configuration' "TaupageConfig" = Done taupage_config
    /\ getitem taupage_config "application_id" = Done (PyStr application_id)
    /\ PyRe.match_anchored APPLICATION_ID_RE application_id = true
    /\ getitem taupage_config "application_version" = Done (PyStr application_version)
    /\ PyRe.match_anchored APPLICATION_VERSION_RE application_version = true
    /\ py_get taupage_config "runtime" = Done (PyStr "Docker")
    /\ py_get taupage_config "source" = Done source
    /\ truthy source = true.
Proof.
  intros H.
  apply component_done in H
    as (with_image & d1 & c1 & tc0 & tc1 & tc2 & tc3 & application_id & application_version
        & source & docker_image & userdata & name & d2
        & _ & _ & _ & _ & _ & _ & Hid & Hcid & Hv & Hcv & Hr & Hs & Ht & _ & _ & _ & _ & _
        & Hset).
  apply check_application_id_done in Hcid as (i & -> & Hi).
  apply check_application_version_done in Hcv as (v & -> & Hv').
  exists tc3, i, v, source. rewrite (getitem_setitem _ _ _ _ Hset). auto 10.
Qed.

(** What follows the check of the image raises no usage error. *)
Lemma after_check_plain (definition configuration taupage_config : node) (args : Args)
    (e : error) :
  result_of
    (userdata <~ user_data (generate_user_data resolve_referenced_resource
                              taupage_config (args_region args)) ;;
     name <~ io_lift (getitem configuration "Name") ;;
     config_name <~ io_lift (add_str name "Config") ;;
     definition <~ pure_call (ensure_keys definition
                                ["Resources"; config_name; "Properties"; "UserData"]) ;;
     definition <~ io_lift (set_path definition
                              ["Resources"; config_name; "Properties"; "UserData"]
                              "Fn::Base64" userdata) ;;
     configuration <~ io_lift (setitem configuration "TaupageConfig" taupage_config) ;;
     io_ret (definition, configuration)) = Failed e ->
  plain e.
Proof.
  intros H. apply io_bind_fail in H as [[H _]|(userdata & _ & H)];
    [apply (user_data_fail _ _ H)|].
  destruct e; try exact I. exfalso.
  fail_step as name E1. fail_step as config_name E2. fail_step as d2 E3.
  fail_step as d3 E4. fail_step as c2 E5. discriminate H.
Qed.

(** X9.  A usage error ends the component before the resolver is called and
    before anything is printed.  The four errors of the configuration are
    raised before any call; the two of the image check are raised only without
    [force], after the token was asked for or the registry was asked whether
    the image exists. *)
Theorem usage_errors_before_resolver
    (definition configuration : node) (args : Args) (info : node) (force : bool)
    (account_info : AccountInfo) (raised : usage) :
  result_of (component definition configuration args info force account_info)
  = Failed (UsageError raised) ->
  match raised with
  | Unauthorized docker_image =>
      force = false
      /\ events_of (component definition configuration args info force account_info)
         = [GetExistingToken "pierone"]
  | ImageDoesNotExist docker_image =>
      force = false
      /\ (events_of (component definition configuration args info force account_info)
          = [DockerImageExists (image_name docker_image)]
          \/ exists token,
               events_of (component definition configuration args info force account_info)
               = [GetExistingToken "pierone"; ImageExists docker_image token])
  | _ => events_of (component definition configuration args info force account_info) = []
  end.
Proof.
  unfold component_taupage_auto_scaling_group. intros H.
  fail_step as has_image E1.
  fail_case as with_image E2;
    [|exfalso; destruct has_image; [discriminate E2|no_usage E2]].
  fail_step as [d1 c1] E3. fail_step as tc0 E4. fail_step as tc1 E5.
  fail_step as tc2 E6. fail_step as tc3 E7. fail_step as application_id E8.
  fail_case as [] E9.
  2:{ unfold check_application_id in E9.
      destruct (re_match_anchored APPLICATION_ID_RE application_id) as [[]|] eqn:E;
        try discriminate E9.
      - inversion E9; subst. reflexivity.
      - destruct application_id; cbn in E; inversion E; subst; discriminate E9. }
  fail_step as application_version E10. fail_case as [] E11.
  2:{ unfold check_application_version in E11.
      destruct (re_match_anchored APPLICATION_VERSION_RE application_version) as [[]|] eqn:E;
        try discriminate E11.
      - inversion E11; subst. reflexivity.
      - destruct application_version; cbn in E; inversion E; subst; discriminate E11. }
  fail_step as runtime E12.
  destruct (is_str "Docker" runtime); cbn [negb] in *;
    [|cbn in H; inversion H; subst; reflexivity].
  fail_step as source E13.
  destruct (truthy source); cbn [negb] in *; [|cbn in H; inversion H; subst; reflexivity].
  fail_step as docker_image E14.
  apply io_bind_fail in H as [[H Hev]|([] & _ & H)];
    [|exfalso; exact (after_check_plain _ _ _ _ _ H)].
  rewrite Hev. clear Hev.
  destruct force; cbn [negb andb] in *; [discriminate H|].
  destruct (registry docker_image) as [name|]; [|discriminate H].
  destruct (negb (String.eqb name "")); [|discriminate H].
  apply io_bind_fail in H as [[H Hev]|(v & _ & H)]; [|discriminate H].
  rewrite Hev. apply check_usage_error in H as [[-> Hc]|[-> Hc]]; auto.
Qed.

Tactic Notation "events_step" "as" simple_intropattern(x) ident(E) :=
  first [rewrite io_bind_lift | rewrite io_bind_pure_call];
  match goal with
  | |- context [match ?r with Done _ => _ | Failed _ => _ end] =>
      destruct r as [x|] eqn:E; [|left; constructor]
  end.


(** X11.  A run of the component that returns has stored, under [Resources],
    the launch configuration named after the component, [Properties],
    [UserData] and [Fn::Base64] of the definition, the user data that
    [generate_user_data] makes of the completed Taupage configuration. *)
Theorem component_stores_user_data
    (definition configuration : node) (args : Args) (info : node) (force : bool)
    (account_info : AccountInfo) (definition' configuration' : node) :
  result_of (component definition configuration args info force account_info)
  = Done (definition', configuration') ->
  exists taupage_config name userdata,
    getitem configuration' "TaupageConfig" = Done taupage_config
    /\ getitem configuration' "Name" = Done (PyStr name)
    /\ outcome (generate_user_data resolve_referenced_resource taupage_config
                  (args_region args)) = Ok userdata
    /\ get_path definition'
         ["Resources"; name ++ "Config"; "Properties"; "UserData"; "Fn::Base64"]
       = Done userdata.
Proof.
  intros H.
  apply component_done in H
    as (with_image & d1 & c1 & tc0 & tc1 & tc2 & tc3 & application_id & application_version
        & source & docker_image & userdata & name & d2
        & _ & _ & _ & _ & _ & _ & _ & _ & _ & _ & _ & _ & _ & _ & Hu & Hn & _ & Hp & Hset).
  exists tc3, name, userdata. rewrite (getitem_setitem _ _ _ _ Hset).
  rewrite (getitem_setitem_other _ _ "TaupageConfig" "Name" _ ltac:(discriminate) Hset).
  repeat (split; [first [reflexivity|assumption]|]).
  apply (get_path_set_path ["Resources"; name ++ "Config"; "Properties"; "UserData"]
           "Fn::Base64" userdata d2 definition' Hp).
Qed.

End ComponentFacts.

Lemma image_check_confirms_existence_witness :
  PyBool true = PyBool true
  /\ exists name token answer queries printed,
       registry hub_image = Some name
       /\ (if is_substring "pierone" name
           then exists stored,
                  sample_token "pierone" = Returned stored
                  /\ truthy stored = true
                  /\ getitem stored "access_token" = Done token
                  /\ sample_image_exists hub_image token = Returned answer
                  /\ queries = [GetExistingToken "pierone"; ImageExists hub_image token]
           else token = PyNone
                /\ sample_docker_image_exists (sample_image_name hub_image)
                   = Returned answer
                /\ queries = [DockerImageExists (sample_image_name hub_image)])
       /\ truthy answer = true
       /\ events_of (check_docker_image_exists sample_token sample_image_exists
                       sample_docker_image_exists sample_image_tag sample_image_name
                       hub_image)
          = (queries ++ GetImageTag hub_image token :: printed)%list
       /\ (printed = [] \/ exists warn_msg, printed = [Secho warn_msg]).
Proof.
  apply (image_check_confirms_existence sample_token sample_image_exists
           sample_docker_image_exists sample_image_tag sample_image_name hub_image
           (PyBool true)).
  vm_compute. reflexivity.
Defined.


Lemma image_check_warning_witness :
  exists token image_tag queries printed,
    sample_image_tag sample_image token = Returned image_tag
    /\ events_of (check_docker_image_exists sample_token sample_image_exists
                    sample_docker_image_exists sample_image_tag sample_image_name
                    sample_image)
       = (queries ++ GetImageTag sample_image token :: printed)%list
    /\ ((exists entries severity,
           image_tag = PyDict entries
           /\ dict_get "severity_fix_available" entries = Some severity
           /\ printed
              = if is_str "COULDNT_FIGURE_OUT" severity || is_str "NO_CVES_FOUND" severity
                then []
                else [Secho (SeverityFixAvailable severity)])
        \/ ((image_tag = PyNone \/ py_in "severity_fix_available" image_tag = Done false)
            /\ printed = [Secho NotChecked])).
Proof.
  apply (image_check_warning sample_token sample_image_exists sample_docker_image_exists
           sample_image_tag sample_image_name sample_image (PyBool true)).
  vm_compute. reflexivity.
Defined.

Lemma component_fills_defaults_witness :
  exists with_image d1 c1 entries added,
    sample_component_auto_scaling_group (PyDict []) with_image "eu-west-1" sample_info
      false tt = Returned (d1, c1)
    /\ getitem c1 "TaupageConfig" = Done (PyDict entries)
    /\ getitem (snd sample_returned) "TaupageConfig" = Done (PyDict (entries ++ added))
    /\ map fst added
       = filter (fun key => negb (contains key entries))
           ["notify_cfn"; "application_id"; "application_version"]
    /\ (forall value, In ("application_id", value) added ->
          getitem sample_info "StackName" = Done value)
    /\ (forall value, In ("application_version", value) added ->
          getitem sample_info "StackVersion" = Done value)
    /\ (forall value, In ("notify_cfn", value) added ->
          exists stack_name stack_version name_text version_text resource,
            getitem sample_info "StackName" = Done stack_name
            /\ getitem sample_info "StackVersion" = Done stack_version
            /\ str_of stack_name = Done name_text
            /\ str_of stack_version = Done version_text
            /\ getitem c1 "Name" = Done resource
            /\ value = PyDict [("stack", PyStr (name_text ++ "-" ++ version_text));
                               ("resource", resource)]).
Proof.
  apply (component_fills_defaults sample_token sample_image_exists
           sample_docker_image_exists sample_image_tag sample_image_name sample_parse
           string unit (fun region => region) sample_component_auto_scaling_group
           sample_ensure_keys resolve_vpc (PyDict []) sample_configuration "eu-west-1"
           sample_info false tt (fst sample_returned) (snd sample_returned)).
  vm_compute. reflexivity.
Defined.

Lemma component_validates_configuration_witness :
  exists taupage_config application_id application_version source,
    getitem (snd sample_returned) "TaupageConfig" = Done taupage_config
    /\ getitem taupage_config "application_id" = Done (PyStr application_id)
    /\ PyRe.match_anchored APPLICATION_ID_RE application_id = true
    /\ getitem taupage_config "application_version" = Done (PyStr application_version)
    /\ PyRe.match_anchored APPLICATION_VERSION_RE application_version = true
    /\ py_get taupage_config "runtime" = Done (PyStr "Docker")
    /\ py_get taupage_config "source" = Done source
    /\ truthy source = true.
Proof.
  apply (component_validates_configuration sample_token sample_image_exists
           sample_docker_image_exists sample_image_tag sample_image_name sample_parse
           string unit (fun region => region) sample_component_auto_scaling_group
           sample_ensure_keys resolve_vpc (PyDict []) sample_configuration "eu-west-1"
           sample_info false tt (fst sample_returned) (snd sample_returned)).
  vm_compute. reflexivity.
Defined.

Lemma usage_errors_before_resolver_witness :
  events_of (sample_component java_configuration false) = []
  /\ events_of
       (component_taupage_auto_scaling_group no_token sample_image_exists
          sample_docker_image_exists sample_image_tag sample_image_name sample_parse
          string unit (fun region => region) sample_component_auto_scaling_group
          sample_ensure_keys resolve_vpc (PyDict []) sample_configuration "eu-west-1"
          sample_info false tt)
     = [GetExistingToken "pierone"].
Proof.
  split.
  - apply (usage_errors_before_resolver sample_token sample_image_exists
             sample_docker_image_exists sample_image_tag sample_image_name sample_parse
             string unit (fun region => region) sample_component_auto_scaling_group
             sample_ensure_keys resolve_vpc (PyDict []) java_configuration "eu-west-1"
             sample_info false tt RuntimeNotDocker).
    vm_compute. reflexivity.
  - apply (usage_errors_before_resolver no_token sample_image_exists
             sample_docker_image_exists sample_image_tag sample_image_name sample_parse
             string unit (fun region => region) sample_component_auto_scaling_group
             sample_ensure_keys resolve_vpc (PyDict []) sample_configuration "eu-west-1"
             sample_info false tt (Unauthorized sample_image)).
    vm_compute. reflexivity.
Defined.

Lemma component_stores_user_data_witness :
  exists taupage_config name userdata,
    getitem (snd sample_returned) "TaupageConfig" = Done taupage_config
    /\ getitem (snd sample_returned) "Name" = Done (PyStr name)
    /\ outcome (generate_user_data resolve_vpc taupage_config "eu-west-1") = Ok userdata
    /\ get_path (fst sample_returned)
         ["Resources"; name ++ "Config"; "Properties"; "UserData"; "Fn::Base64"]
       = Done userdata.
Proof.
  apply (component_stores_user_data sample_token sample_image_exists
           sample_docker_image_exists sample_image_tag sample_image_name sample_parse
           string unit (fun region => region) sample_component_auto_scaling_group
           sample_ensure_keys resolve_vpc (PyDict []) sample_configuration "eu-west-1"
           sample_info false tt (fst sample_returned) (snd sample_returned)).
  vm_compute. reflexivity.
Defined.

(** ** The user data *)

Lemma drop_drop (a b : nat) (s : string) : drop a (drop b s) = drop (b + a) s.
Proof.
  revert s. induction b as [|b IH]; intros s; [reflexivity|].
  destruct s as [|c s]; [destruct a; reflexivity|]. cbn. apply IH.
Qed.

Lemma slice_drop (text : string) (a b : nat) :
  a <= b -> slice text a b = substring 0 (b - a) (drop a text).
Proof.
  unfold slice. intros H. generalize (b - a) as n. clear H b.
  revert text. induction a as [|a IH]; intros text n; [reflexivity|].
  destruct text as [|c text]; [destruct n; reflexivity|]. cbn. apply IH.
Qed.

Lemma substring_drop (n : nat) (s : string) : substring 0 n s ++ drop n s = s.
Proof.
  revert s. induction n as [|n IH]; intros s; [destruct s; reflexivity|].
  destruct s as [|c s]; [reflexivity|]. cbn. f_equal. apply IH.
Qed.

Lemma substring_append (a b : string) : substring 0 (String.length a) (a ++ b) = a.
Proof.
  induction a as [|c a IH]; [destruct b; reflexivity|]. cbn. f_equal. exact IH.
Qed.

(** The text from [last_pos] on is the literal before a match followed by
    the text from the match on. *)
Lemma slice_then_drop (text : string) (a b : nat) :
  a <= b -> slice text a b ++ drop b text = drop a text.
Proof.
  intros H. rewrite (slice_drop _ _ _ H).
  replace b with (a + (b - a)) at 2 by lia. rewrite <- drop_drop.
  apply substring_drop.
Qed.

(** A match of the search is the two markers around its group 2, and the
    text goes on where the match ends. *)
Lemma search_text (text : string) (pos : nat) (m : re_match) :
  search (drop pos text) pos = Some m ->
  pos <= m_start m
  /\ drop (m_start m) text = OPENING ++ m_group2 m ++ CLOSING ++ drop (m_end m) text.
Proof.
  intros H. apply search_bounds in H as (H1 & H2 & _ & H4). split; [exact H1|].
  rewrite drop_drop in H4. replace (pos + (m_start m - pos)) with (m_start m) in H4 by lia.
  apply match_here_sound in H4 as [rest E].
  assert (Hr : drop (m_end m) text = rest).
  { rewrite H2.
    replace (m_start m + 4 + String.length (m_group2 m) + 4)
      with (m_start m + String.length (OPENING ++ m_group2 m ++ CLOSING))
      by (rewrite !length_append; cbn; lia).
    rewrite <- drop_drop, E.
    replace (OPENING ++ m_group2 m ++ CLOSING ++ rest)
      with ((OPENING ++ m_group2 m ++ CLOSING) ++ rest)
      by (rewrite !append_assoc; reflexivity).
    apply drop_append. }
  rewrite Hr. exact E.
Qed.

Lemma split_loop_reassembles (text : string) (fuel pos : nat) (acc parts : list node) :
  split_loop text (finditer_from fuel text pos) pos acc = Ok parts ->
  exists first rest,
    parts = (acc ++ alternate first rest)%list
    /\ List.length rest = List.length (finditer_from fuel text pos)
    /\ reassemble first (finditer_from fuel text pos) rest = drop pos text.
Proof.
  revert pos acc. induction fuel as [|fuel IH]; intros pos acc H.
  - cbn in H. inversion H. exists (drop pos text), []. auto.
  - rewrite finditer_from_S in *. destruct (search (drop pos text) pos) as [m|] eqn:E.
    + cbn [split_loop] in H.
      destruct (PyJson.loads (m_group2 m)) as [v|e]; [|discriminate].
      apply IH in H as (first & rest & -> & Hl & Hr).
      apply search_text in E as [Hle Ht].
      exists (slice text pos (m_start m)), ((v, first) :: rest). split; [|split].
      * rewrite <- List.app_assoc. reflexivity.
      * cbn. rewrite Hl. reflexivity.
      * cbn [reassemble]. rewrite Hr, <- Ht. apply slice_then_drop, Hle.
    + cbn in H. inversion H. exists (drop pos text), []. auto.
Qed.

Lemma substring_header (y : string) (n : nat) :
  20 <= n -> substring 0 n (HEADER ++ y) = HEADER ++ substring 0 (n - 20) y.
Proof.
  intros H. replace n with (20 + (n - 20)) at 1 by lia.
  unfold HEADER, nl, chr. cbn [append substring Nat.add]. reflexivity.
Qed.

Lemma search_header (y : string) : search (HEADER ++ y) 0 = search y 20.
Proof.
  unfold HEADER, nl, chr. cbn [append].
  do 20 (rewrite search_skip by (unfold SQ, LF; discriminate)). reflexivity.
Qed.

(** The first literal of a split result: the whole text, or the text before
    the first match. *)
Lemma split_first_literal (text : string) (parts : list node) :
  split text = Ok parts ->
  exists first rest,
    parts = alternate first rest
    /\ match search text 0 with
       | None => first = text /\ rest = []
       | Some m => first = slice text 0 (m_start m) /\ rest <> []
       end.
Proof.
  unfold split. intros H. pose proof (split_loop_shape _ _ _ _ _ H) as (rest & -> & HF).
  rewrite finditer_unfold in HF |- *. destruct (search text 0) as [m|].
  - eexists. exists rest. split; [reflexivity|]. split; [reflexivity|].
    inversion HF. discriminate.
  - inversion HF; subst. exists text, []. auto.
Qed.

(** When the loop of [split] raises, some match does not decode, and the
    exception is that of the decoder. *)
Lemma split_loop_raises (text : string) (ms : list re_match) (last_pos : nat)
    (acc : list node) (e : exn) :
  split_loop text ms last_pos acc = Raise e ->
  exists m, In m ms /\ PyJson.loads (m_group2 m) = Raise e.
Proof.
  revert last_pos acc. induction ms as [|m ms IH]; intros last_pos acc H; [discriminate H|].
  cbn [split_loop] in H. destruct (PyJson.loads (m_group2 m)) as [v|e'] eqn:E.
  - apply IH in H as (m' & Hin & Hm). exists m'. split; [right; exact Hin|exact Hm].
  - inversion H; subst. exists m. split; [left; reflexivity|exact E].
Qed.

(** What the search returns, in terms of the text. *)
Lemma search_match (text : string) (pos : nat) (m : re_match) :
  search (drop pos text) pos = Some m ->
  pos <= m_start m
  /\ m_end m = m_start m + 4 + String.length (m_group2 m) + 4
  /\ m_end m <= String.length text
  /\ slice text (m_start m) (m_end m) = OPENING ++ m_group2 m ++ CLOSING
  /\ forall n, n < String.length (m_group2 m) ->
       prefix CLOSING (drop (m_start m + 4 + n) text) = false.
Proof.
  intros H. pose proof (search_text _ _ _ H) as [Hle Ht].
  apply search_bounds in H as (_ & H2 & H3 & H4). rewrite drop_length in H3.
  split; [exact Hle|]. split; [exact H2|]. split; [lia|]. split.
  - rewrite slice_drop by lia. rewrite Ht.
    replace (m_end m - m_start m) with (String.length (OPENING ++ m_group2 m ++ CLOSING))
      by (rewrite !length_append; cbn; lia).
    replace (OPENING ++ m_group2 m ++ CLOSING ++ drop (m_end m) text)
      with ((OPENING ++ m_group2 m ++ CLOSING) ++ drop (m_end m) text)
      by (rewrite !append_assoc; reflexivity).
    apply substring_append.
  - intros n Hn. rewrite drop_drop in H4.
    replace (pos + (m_start m - pos)) with (m_start m) in H4 by lia.
    unfold match_here in H4. destruct (prefix OPENING (drop (m_start m) text)); [|discriminate].
    pose proof (lazy_until_closing_first _ _ H4 n Hn) as Hc.
    rewrite !drop_drop in Hc. rewrite Nat.add_assoc in Hc. exact Hc.
Qed.

Lemma finditer_from_matches (text : string) (fuel pos : nat) :
  Forall (fun m =>
            pos <= m_start m
            /\ m_end m = m_start m + 4 + String.length (m_group2 m) + 4
            /\ m_end m <= String.length text
            /\ slice text (m_start m) (m_end m) = OPENING ++ m_group2 m ++ CLOSING
            /\ forall n, n < String.length (m_group2 m) ->
                 prefix CLOSING (drop (m_start m + 4 + n) text) = false)
    (finditer_from fuel text pos)
  /\ StronglySorted (fun a b => m_end a <= m_start b) (finditer_from fuel text pos).
Proof.
  revert pos. induction fuel as [|fuel IH]; intros pos; [split; constructor|].
  rewrite finditer_from_S. destruct (search (drop pos text) pos) as [m|] eqn:E;
    [|split; constructor].
  pose proof (search_match _ _ _ E) as Hm. destruct (IH (m_end m)) as [Hall Hs].
  split.
  - constructor; [exact Hm|]. revert Hall. apply Forall_impl.
    intros m' (H1 & H2). split; [|exact H2]. destruct Hm as (Hp & He & _). lia.
  - constructor; [exact Hs|]. revert Hall. apply Forall_impl. intros m' (H1 & _). exact H1.
Qed.

(** X12.  Whenever [generate_user_data] returns, the resolver was called for
    the lookups that the walk of [transform] meets, once each and in the order
    of the document, and for nothing else; every call was answered. *)
Theorem resolver_call_trace
    (resolver : node -> string -> result node) (region : string)
    (taupage_config out : node) :
  outcome (generate_user_data resolver taupage_config region) = Ok out ->
  calls_of (generate_user_data resolver taupage_config region)
  = lookups_visited taupage_config
  /\ Forall (fun nd => exists entries v,
               nd = PyDict entries /\ is_lookup entries = true
               /\ resolver nd region = Ok v)
       (lookups_visited taupage_config).
Proof.
  intros H. pose proof (walk_log_transform resolver region taupage_config) as W.
  unfold walk_log in W. unfold generate_user_data, bind, lift, ret, outcome, calls_of in *.
  destruct (transform resolver region taupage_config) as [c [t|e]]; cbn [fst snd] in *;
    [|discriminate H].
  destruct W as [-> Hall].
  destruct (split (HEADER ++ PyYaml.dump t)) as [parts|e]; cbn [fst snd] in *;
    [|discriminate H].
  split; [rewrite !List.app_nil_r; reflexivity|].
  apply Forall_forall. intros nd Hin. rewrite Forall_forall in Hall.
  destruct (Hall nd Hin) as [v Hv].
  destruct (visited_are_lookups taupage_config nd Hin) as [entries [-> He]].
  exists entries, v. auto.
Qed.

Lemma resolver_call_trace_witness :
  calls_of (generate_user_data resolve_vpc
              (PyDict [("vpc", core_vpc); ("ref", PyDict [("Ref", core_vpc)])]) "eu-west-1")
  = [core_vpc].
Proof.
  apply (resolver_call_trace resolve_vpc "eu-west-1"
           (PyDict [("vpc", core_vpc); ("ref", PyDict [("Ref", core_vpc)])])
           (PyDict [("Fn::Join",
                     PyList [PyStr "";
                             PyList [PyStr (HEADER ++ "ref: ");
                                     PyDict [("Ref", core_vpc)];
                                     PyStr (nl ++ "vpc: vpc-123" ++ nl)]])])).
  vm_compute. reflexivity.
Defined.

(** X13.  A second pass of [transform] changes nothing and calls nothing, when
    the resolver answers with values that hold no AWS function and no lookup:
    what the first pass returns holds neither. *)
Theorem transform_idempotent
    (resolver : node -> string -> result node) (region : string)
    (taupage_config transformed : node) :
  (forall nd v, resolver nd region = Ok v -> expression_free v = true) ->
  outcome (transform resolver region taupage_config) = Ok transformed ->
  expression_free transformed = true
  /\ transform resolver region transformed = ([], Ok transformed).
Proof.
  intros Hr H. enough (E : expression_free transformed = true).
  { split; [exact E|]. apply transform_expression_free, E. }
  revert transformed H.
  induction taupage_config as [| | | |items IH|entries IH] using node_ind; intros t H;
    try (cbn in H; inversion H; reflexivity).
  - rewrite transform_list in H. apply outcome_bind_ret in H as (items' & H & ->).
    apply transform_each_ok in H. cbn [expression_free].
    induction H as [|x x' l l' Hx _ IHl]; [reflexivity|].
    inversion IH; subst. cbn. rewrite (H1 _ Hx). cbn. auto.
  - rewrite transform_dict in H. destruct (is_lookup entries) eqn:E.
    + cbn in H. eauto.
    + destruct (is_deferred entries) eqn:D; [cbn in H; inversion H; reflexivity|].
      apply outcome_bind_ret in H as (entries' & H & ->).
      apply transform_items_ok in H. cbn [expression_free].
      pose proof (Forall2_keys
                    (fun x x' => outcome (transform resolver region x) = Ok x')
                    _ _ H) as Hk.
      assert (E' : is_lookup entries' = false).
      { unfold is_lookup in *. rewrite !(contains_keys _ _ _ Hk). exact E. }
      assert (D' : is_deferred entries' = false).
      { rewrite <- D. clear -Hk. unfold is_deferred.
        destruct entries as [|[k v] [|]], entries' as [|[k' v'] [|]];
          try discriminate Hk; try reflexivity.
        cbn in Hk. inversion Hk. reflexivity. }
      rewrite E', D'. cbn [negb andb]. clear E D E' D' Hk.
      induction H as [|kv kv' l l' [_ Hx] _ IHl]; [reflexivity|].
      inversion IH; subst. cbn. rewrite (H1 _ Hx). cbn. auto.
Qed.

Lemma transform_idempotent_witness :
  expression_free (PyDict [("vpc", PyStr "vpc-123");
                           ("ref", PyStr (placeholder (PyDict [("Ref", PyStr "x")])))]) = true
  /\ transform resolve_vpc "eu-west-1"
       (PyDict [("vpc", PyStr "vpc-123");
                ("ref", PyStr (placeholder (PyDict [("Ref", PyStr "x")])))])
     = ([], Ok (PyDict [("vpc", PyStr "vpc-123");
                        ("ref", PyStr (placeholder (PyDict [("Ref", PyStr "x")])))])).
Proof.
  apply (transform_idempotent resolve_vpc "eu-west-1"
           (PyDict [("vpc", core_vpc); ("ref", PyDict [("Ref", PyStr "x")])])).
  - intros nd v. unfold resolve_vpc.
    repeat match goal with
           | |- context [match ?x with _ => _ end] => destruct x; try discriminate
           end.
    intros H; inversion H; reflexivity.
  - reflexivity.
Defined.

(** X14.  The text that [transform] puts between the braces of a placeholder
    decodes, as it stands, to the node it was made from. *)
Theorem placeholder_json_round_trip
    (resolver : node -> string -> result node) (region : string)
    (key : string) (value : node) :
  is_aws_fn key = true ->
  well_formed (PyDict [(key, value)]) = true ->
  exists text,
    transform resolver region (PyDict [(key, value)])
    = ([], Ok (PyStr ("{{ " ++ text ++ " }}")))
    /\ PyJson.loads text = Ok (PyDict [(key, value)]).
Proof.
  intros Hk Hwf. exists (PyJson.dumps (PyDict [(key, value)])). split.
  - apply transform_deferred, Hk.
  - apply loads_dumps, Hwf.
Qed.

Lemma placeholder_json_round_trip_witness :
  exists text,
    transform never_found "eu-west-1" sub_with_quote
    = ([], Ok (PyStr ("{{ " ++ text ++ " }}")))
    /\ PyJson.loads text = Ok sub_with_quote.
Proof.
  apply (placeholder_json_round_trip never_found "eu-west-1" "Fn::Sub"
           (PyStr "it's ${AWS::Region}")); reflexivity.
Defined.

(** X15.  [split] loses nothing of the text: the literals it returns, with the
    matched placeholders put back between them in their quotes, are the text
    it was given. *)
Theorem split_reassembles (text : string) (parts : list node) :
  split text = Ok parts ->
  exists first rest,
    parts = alternate first rest
    /\ List.length rest = List.length (finditer text)
    /\ reassemble first (finditer text) rest = text.
Proof.
  unfold split, finditer. intros H.
  apply split_loop_reassembles in H as (first & rest & -> & Hl & Hr).
  exists first, rest. auto.
Qed.

Lemma split_reassembles_witness :
  exists first rest,
    [PyStr "a: "; PyInt 1; PyStr "!"] = alternate first rest
    /\ List.length rest = List.length (finditer "a: '{{ 1 }}'!")
    /\ reassemble first (finditer "a: '{{ 1 }}'!") rest = "a: '{{ 1 }}'!".
Proof.
  apply (split_reassembles "a: '{{ 1 }}'!"). vm_compute. reflexivity.
Defined.

(** X16.  The user data always begins with the header line: the string that
    [generate_user_data] returns, or the first element of the list that it
    joins, starts with [#taupage-ami-config] and a line feed. *)
Theorem user_data_starts_with_header
    (resolver : node -> string -> result node) (region : string)
    (taupage_config out : node) :
  outcome (generate_user_data resolver taupage_config region) = Ok out ->
  exists s,
    out = PyStr (HEADER ++ s)
    \/ exists rest,
         out = PyDict [("Fn::Join",
                        PyList [PyStr ""; PyList (PyStr (HEADER ++ s) :: rest)])].
Proof.
  intros H. apply generate_user_data_ok in H as (t & parts & _ & Hs & ->).
  apply split_first_literal in Hs as (first & rest & -> & Hf).
  rewrite search_header in Hf.
  destruct (search (PyYaml.dump t) 20) as [m|] eqn:E.
  - destruct Hf as [-> Hne]. apply search_bounds in E as (Hle & _).
    unfold slice. rewrite Nat.sub_0_r, (substring_header _ _ Hle).
    eexists. right. destruct rest as [|[x l] rest]; [congruence|].
    eexists. reflexivity.
  - destruct Hf as [-> ->]. eexists. left. reflexivity.
Qed.

Lemma user_data_starts_with_header_witness :
  exists s,
    PyStr (HEADER ++ "a: 2" ++ nl ++ "b: 1" ++ nl) = PyStr (HEADER ++ s)
    \/ exists rest,
         PyStr (HEADER ++ "a: 2" ++ nl ++ "b: 1" ++ nl)
         = PyDict [("Fn::Join", PyList [PyStr ""; PyList (PyStr (HEADER ++ s) :: rest)])].
Proof.
  apply (user_data_starts_with_header never_found "eu-west-1" unordered_config).
  vm_compute. reflexivity.
Defined.

(** X17.  [generate_user_data] raises nothing of its own: an exception that
    leaves it was raised by the resolver for a lookup that [transform] met, or
    by the decoder for the text of a match of the pattern. *)
Theorem generate_user_data_failures
    (resolver : node -> string -> result node) (region : string)
    (taupage_config : node) (e : exn) :
  outcome (generate_user_data resolver taupage_config region) = Raise e ->
  (exists nd,
     In nd (lookups_visited taupage_config) /\ resolver nd region = Raise e)
  \/ (exists transformed m,
        outcome (transform resolver region taupage_config) = Ok transformed
        /\ In m (finditer (HEADER ++ PyYaml.dump transformed))
        /\ PyJson.loads (m_group2 m) = Raise e).
Proof.
  intros H. pose proof (walk_log_transform resolver region taupage_config) as W.
  unfold walk_log in W. unfold generate_user_data, bind, lift, ret, outcome in *.
  destruct (transform resolver region taupage_config) as [c [t|e']]; cbn [fst snd] in *.
  - right. destruct (split (HEADER ++ PyYaml.dump t)) as [parts|e'] eqn:Es;
      cbn [snd] in H; [discriminate H|].
    inversion H; subst. apply split_loop_raises in Es as (m & Hin & Hm). eauto.
  - left. inversion H; subst.
    destruct W as (before & failed & after & Hv & _ & _ & Hf).
    exists failed. split; [|exact Hf]. rewrite Hv. apply in_or_app. right. left. reflexivity.
Qed.

Lemma generate_user_data_failures_witness :
  (exists nd,
     In nd (lookups_visited failing_config)
     /\ resolve_vpc nd "eu-west-1" = Raise (ResolverError "not found"))
  \/ (exists transformed m,
        outcome (transform resolve_vpc "eu-west-1" failing_config) = Ok transformed
        /\ In m (finditer (HEADER ++ PyYaml.dump transformed))
        /\ PyJson.loads (m_group2 m) = Raise (ResolverError "not found")).
Proof.
  apply (generate_user_data_failures resolve_vpc "eu-west-1" failing_config).
  vm_compute. reflexivity.
Defined.

(** X18.  The matches that [split] cuts the text at lie in the text, one after
    the other without overlap; each is the opening marker, group 2 and the
    closing marker; and group 2 ends at the first closing marker after the
    opening one: no closing marker starts inside it. *)
Theorem finditer_matches (text : string) :
  Forall (fun m =>
            m_end m = m_start m + 4 + String.length (m_group2 m) + 4
            /\ m_end m <= String.length text
            /\ slice text (m_start m) (m_end m) = OPENING ++ m_group2 m ++ CLOSING
            /\ forall n, n < String.length (m_group2 m) ->
                 prefix CLOSING (drop (m_start m + 4 + n) text) = false)
    (finditer text)
  /\ StronglySorted (fun a b => m_end a <= m_start b) (finditer text).
Proof.
  unfold finditer.
  destruct (finditer_from_matches text (S (String.length text)) 0) as [Hall Hs].
  split; [|exact Hs]. revert Hall. apply Forall_impl. intros m (_ & H). exact H.
Qed.
